(** * Remote Config storage: the custom-signal merge and the two backends

    A shallow embedding of [packages/remote-config/src/storage/storage.ts]:
    the pure function [mergeCustomSignals], the volatile backend
    [InMemoryStorage] and the persistent backend [IndexedDbStorage], with
    the properties the specification states about them. *)

From Stdlib Require Import ZArith Ascii.
From stdpp Require Import gmap strings list fin_maps pretty.

Set Warnings "-register-all".

(** ** JavaScript numbers

    The storage code uses two operations on a [number]: it prints one with
    [toString()], and [||] tests one for truthiness. *)

Class JsNumber (number : Type) := {
  (* Number.prototype.toString *)
  number_toString : number → string;
  (* ToBoolean is false exactly on +0, -0 and NaN *)
  number_falsy : number → bool
}.

(** The integer-valued numbers, printed in decimal. *)
#[export] Instance Z_JsNumber : JsNumber Z := {|
  number_toString := pretty;
  number_falsy := Z.eqb 0
|}.

(** ** Values

    What a record may hold: [InMemoryStorage.storage] is declared
    [{ [key: string]: unknown }] and [get<T>] / [set<T>] are generic. *)

Inductive jsval (number : Type) : Type :=
  | VUndefined
  | VNull
  | VBoolean (b : bool)
  | VNumber (n : number)
  | VString (s : string)
  | VObject (props : gmap string (jsval number)).

Arguments VUndefined {number}.
Arguments VNull {number}.
Arguments VBoolean {number} b.
Arguments VNumber {number} n.
Arguments VString {number} s.
Arguments VObject {number} props.

(** ** Errors

    [ERROR_FACTORY.create(code, data)]: the error codes this file raises and
    the data it attaches to them. *)

Inductive ErrorCode :=
  | STORAGE_OPEN
  | STORAGE_GET
  | STORAGE_SET
  | STORAGE_DELETE
  | CUSTOM_SIGNAL_MAX_ALLOWED_SIGNALS.

Inductive ErrorData :=
  | originalErrorMessage (m : option string)
  | maxSignals (n : nat).

Record FirebaseError := ERROR_FACTORY_create {
  code : ErrorCode;
  customData : ErrorData
}.

(** A call either returns or throws (a promise resolves or rejects). *)
Inductive Result (A : Type) : Type :=
  | Ok (a : A)
  | Throw (e : FirebaseError).

Arguments Ok {A} a.
Arguments Throw {A} e.

Definition isOk {A} (r : Result A) : bool :=
  match r with Ok _ => true | Throw _ => false end.

(** An asynchronous method of an object whose mutable state is an [S]: run
    on a state it resolves or rejects and leaves a state behind. *)
Definition Async (S A : Type) : Type := S → Result A * S.

#[export] Instance Async_ret {S} : MRet (Async S) :=
  λ A a s, (Ok a, s).

#[export] Instance Async_bind {S} : MBind (Async S) :=
  λ A B k c s,
    match c s with
    | (Ok a, s') => k a s'
    | (Throw e, s') => (Throw e, s')
    end.

(** A synchronous call whose result is awaited or whose exception escapes. *)
Definition liftResult {S A} (r : Result A) : Async S A := λ s, (r, s).

(** Provides type-safety for the [key] field used by [APP_NAMESPACE_STORE]. *)
Inductive ProjectNamespaceKeyFieldValue :=
  | active_config
  | active_config_etag
  | last_fetch_status
  | last_successful_fetch_timestamp_millis
  | last_successful_fetch_response
  | settings
  | throttle_metadata
  | custom_signals.

(** The string each key is at run time. *)
Definition keyString (key : ProjectNamespaceKeyFieldValue) : string :=
  match key with
  | active_config => "active_config"
  | active_config_etag => "active_config_etag"
  | last_fetch_status => "last_fetch_status"
  | last_successful_fetch_timestamp_millis =>
      "last_successful_fetch_timestamp_millis"
  | last_successful_fetch_response => "last_successful_fetch_response"
  | settings => "settings"
  | throttle_metadata => "throttle_metadata"
  | custom_signals => "custom_signals"
  end.

(** [Array.prototype.join] on an array of strings; [join()] without an
    argument separates with a comma. *)
Fixpoint join (separator : string) (array : list string) : string :=
  match array with
  | [] => ""
  | [x] => x
  | x :: rest => x +:+ separator +:+ join separator rest
  end.

Definition defaultSeparator : string := ",".

(** ** Constants

    The limit is imported from [../constants]; the storage code only compares
    against it and reports it, so it is a parameter of the development. *)

Class Constants := {
  RC_CUSTOM_SIGNAL_MAX_ALLOWED_SIGNALS : nat
}.

Section Storage.

Context {number : Type} `{!JsNumber number} {theConstants : Constants}.

Abbreviation val := (jsval number).
(** [CustomSignals] is an object: a map from property names to values. *)
Abbreviation CustomSignals := (gmap string (jsval number)).

(** [v !== null] *)
Definition isNull (v : val) : bool :=
  match v with VNull => true | _ => false end.

(** [typeof v === 'number' ? v.toString() : v] *)
Definition stringifyNumber (v : val) : val :=
  match v with
  | VNumber n => VString (number_toString n)
  | _ => v
  end.

(** The members of the declared value type [string | number | null]. *)
Definition isSignalValue (v : val) : bool :=
  match v with VNull | VNumber _ | VString _ => true | _ => false end.

Definition isString (v : val) : bool :=
  match v with VString _ => true | _ => false end.

(** The own enumerable properties an object spread [{...v}] copies: those
    of an object, the indexed characters of a string, none for the other
    primitives. *)
Fixpoint stringProps (i : nat) (s : string) : CustomSignals :=
  match s with
  | EmptyString => ∅
  | String c s' =>
      <[pretty i := VString (String c EmptyString)]> (stringProps (S i) s')
  end.

Definition ownProps (v : val) : CustomSignals :=
  match v with
  | VObject props => props
  | VString s => stringProps 0 s
  | _ => ∅
  end.

(** ToBoolean, which [a || b] applies to [a]. *)
Definition truthy (v : val) : bool :=
  match v with
  | VUndefined | VNull => false
  | VBoolean b => b
  | VNumber n => negb (number_falsy n)
  | VString s => negb (String.eqb s "")
  | VObject _ => true
  end.

(** [a || b] *)
Definition logicalOr (a b : val) : val := if truthy a then a else b.

(** ** mergeCustomSignals *)

(** Lines 365-382: the spread of both objects (later properties win), then
    [Object.entries], [filter], [map] and [Object.fromEntries]. *)
Definition updatedSignals (customSignals storedSignals : val)
    : CustomSignals :=
  let combinedSignals := ownProps customSignals ∪ ownProps storedSignals in
  list_to_map
    (map (λ '(k, v), (k, stringifyNumber v))
       (List.filter (λ '(_, v), negb (isNull v))
          (map_to_list combinedSignals))).

Definition mergeCustomSignals (customSignals storedSignals : val)
    : Result val :=
  let updatedSignals := updatedSignals customSignals storedSignals in
  (* Object.keys(updatedSignals).length
       > RC_CUSTOM_SIGNAL_MAX_ALLOWED_SIGNALS *)
  if decide (RC_CUSTOM_SIGNAL_MAX_ALLOWED_SIGNALS < size updatedSignals) then
    Throw (ERROR_FACTORY_create CUSTOM_SIGNAL_MAX_ALLOWED_SIGNALS
             (maxSignals RC_CUSTOM_SIGNAL_MAX_ALLOWED_SIGNALS))
  else Ok (VObject updatedSignals).

(** ** The abstract class [Storage]

    The four abstract methods; an implementation is a value of this record.
    An absent value is [undefined], as in [Promise<T | undefined>]. *)

Record Storage (S : Type) := {
  setCustomSignals : val → Async S val;
  get : ProjectNamespaceKeyFieldValue → Async S val;
  set : ProjectNamespaceKeyFieldValue → val → Async S unit;
  delete : ProjectNamespaceKeyFieldValue → Async S unit
}.

Arguments setCustomSignals {S} _ _.
Arguments get {S} _ _.
Arguments set {S} _ _ _.
Arguments delete {S} _ _.

(** The accessors the base class implements on top of them. *)
Section Accessors.
Context {S : Type} (this : Storage S).

Definition getLastFetchStatus := get this last_fetch_status.
Definition setLastFetchStatus (status : val) :=
  set this last_fetch_status status.
Definition getLastSuccessfulFetchTimestampMillis :=
  get this last_successful_fetch_timestamp_millis.
Definition setLastSuccessfulFetchTimestampMillis (timestamp : val) :=
  set this last_successful_fetch_timestamp_millis timestamp.
Definition getLastSuccessfulFetchResponse :=
  get this last_successful_fetch_response.
Definition setLastSuccessfulFetchResponse (response : val) :=
  set this last_successful_fetch_response response.
Definition getActiveConfig := get this active_config.
Definition setActiveConfig (config : val) := set this active_config config.
Definition getActiveConfigEtag := get this active_config_etag.
Definition setActiveConfigEtag (etag : val) :=
  set this active_config_etag etag.
Definition getThrottleMetadata := get this throttle_metadata.
Definition setThrottleMetadata (metadata : val) :=
  set this throttle_metadata metadata.
Definition deleteThrottleMetadata := delete this throttle_metadata.
Definition getCustomSignals := get this custom_signals.
End Accessors.

(** ** InMemoryStorage

    The state is the private field [storage], an object indexed by the key
    string; reading a property it does not have gives [undefined] (no key
    of [ProjectNamespaceKeyFieldValue] names a property of
    [Object.prototype]). *)

Abbreviation storage := (gmap string val).

(** [storage[key]] *)
Definition index (storage : storage) (key : string) : val :=
  default VUndefined (storage !! key).

Definition InMemoryStorage_get (key : ProjectNamespaceKeyFieldValue)
    : Async storage val :=
  λ storage, (Ok (index storage (keyString key)), storage).

Definition InMemoryStorage_set (key : ProjectNamespaceKeyFieldValue)
    (value : val) : Async storage unit :=
  λ storage, (Ok (), <[keyString key := value]> storage).

Definition InMemoryStorage_delete (key : ProjectNamespaceKeyFieldValue)
    : Async storage unit :=
  λ storage, (Ok (), <[keyString key := VUndefined]> storage).

Definition InMemoryStorage_setCustomSignals (customSignals : val)
    : Async storage val :=
  λ storage,
    let storedSignals :=
      logicalOr (index storage "custom_signals") (VObject ∅) in
    match mergeCustomSignals customSignals storedSignals with
    | Throw e => (Throw e, storage)
    | Ok merged =>
        let storage := <["custom_signals" := merged]> storage in
        (Ok (index storage "custom_signals"), storage)
    end.

Definition InMemoryStorage : Storage storage := {|
  setCustomSignals := InMemoryStorage_setCustomSignals;
  get := InMemoryStorage_get;
  set := InMemoryStorage_set;
  delete := InMemoryStorage_delete
|}.

(** [new InMemoryStorage()] starts from [storage = {}]. *)
Definition InMemoryStorage_new : storage := ∅.

(** ** IndexedDbStorage *)

(** A record of the object store [APP_NAMESPACE_STORE], whose key path is
    [compositeKey]. *)
Record StoreRecord := {
  compositeKey : string;
  value : val
}.

(** The object store: at most one record per key. *)
Abbreviation objectStore := (gmap string StoreRecord).

(** [objectStore.put(record)] once the request has succeeded. *)
Definition put (record : StoreRecord) (store : objectStore) : objectStore :=
  <[compositeKey record := record]> store.

(** The [onsuccess] handler of a [get] request: [request.result] is the
    record, or [undefined] when the store has none under the key. *)
Definition resolvedValue (result : option StoreRecord) : val :=
  match result with
  | Some result => value result
  | None => VUndefined
  end.

(** How the medium answers one request: its [onsuccess] handler runs, its
    [onerror] handler runs (with the message of [request.error], if any), or
    issuing the request throws (with the message of the exception, if
    any). *)
Inductive RequestOutcome :=
  | onsuccess
  | onerror (message : option string)
  | throws (message : option string).

#[export] Instance RequestOutcome_eq_dec : EqDecision RequestOutcome.
Proof. solve_decision. Defined.

(** The medium during one method call, which issues at most one request of
    each kind. *)
Record Medium := {
  getRequest : RequestOutcome;
  putRequest : RequestOutcome;
  deleteRequest : RequestOutcome
}.

(** Converts an error event of a request to a [FirebaseError]. *)
Definition toFirebaseError (message : option string) (errorCode : ErrorCode)
    : FirebaseError :=
  ERROR_FACTORY_create errorCode (originalErrorMessage message).

(** The constructor's parameters. [openDbPromise] has resolved with the
    database or rejected; [db.transaction] and [transaction.objectStore]
    return, the store being created by the upgrade and the connection never
    closed. *)
Record IndexedDbStorage_fields := {
  appId : string;
  appName : string;
  namespace : string;
  openDbPromise : Result unit
}.

Section IndexedDbStorage.
Variable this : IndexedDbStorage_fields.
Variable medium : Medium.

(** Facilitates composite key functionality. *)
Definition createCompositeKey (key : ProjectNamespaceKeyFieldValue)
    : string :=
  join defaultSeparator
    [appId this; appName this; namespace this; keyString key].

Definition getWithTransaction (key : ProjectNamespaceKeyFieldValue)
    : Async objectStore val :=
  λ store,
    let compositeKey := createCompositeKey key in
    match getRequest medium with
    | throws m =>
        (Throw (ERROR_FACTORY_create STORAGE_GET (originalErrorMessage m)),
         store)
    | onerror m => (Throw (toFirebaseError m STORAGE_GET), store)
    | onsuccess =>
        (Ok (resolvedValue (store !! compositeKey)), store)
    end.

Definition setWithTransaction (key : ProjectNamespaceKeyFieldValue)
    (value : val) : Async objectStore unit :=
  λ store,
    let compositeKey := createCompositeKey key in
    match putRequest medium with
    | throws m =>
        (Throw (ERROR_FACTORY_create STORAGE_SET (originalErrorMessage m)),
         store)
    | onerror m => (Throw (toFirebaseError m STORAGE_SET), store)
    | onsuccess =>
        (Ok (),
         put {| compositeKey := compositeKey; value := value |} store)
    end.

Definition IndexedDbStorage_setCustomSignals (customSignals : val)
    : Async objectStore val :=
  _ ← liftResult (openDbPromise this);
  storedSignals ← getWithTransaction custom_signals;
  updatedSignals ←
    liftResult
      (mergeCustomSignals customSignals
         (logicalOr storedSignals (VObject ∅)));
  _ ← setWithTransaction custom_signals updatedSignals;
  mret updatedSignals.

Definition IndexedDbStorage_get (key : ProjectNamespaceKeyFieldValue)
    : Async objectStore val :=
  _ ← liftResult (openDbPromise this);
  getWithTransaction key.

Definition IndexedDbStorage_set (key : ProjectNamespaceKeyFieldValue)
    (value : val) : Async objectStore unit :=
  _ ← liftResult (openDbPromise this);
  setWithTransaction key value.

(** The promise [delete] builds around its request. *)
Definition deleteWithTransaction (key : ProjectNamespaceKeyFieldValue)
    : Async objectStore unit :=
  λ store,
    let compositeKey := createCompositeKey key in
    match deleteRequest medium with
    | throws m =>
        (Throw
           (ERROR_FACTORY_create STORAGE_DELETE (originalErrorMessage m)),
         store)
    | onerror m => (Throw (toFirebaseError m STORAGE_DELETE), store)
    | onsuccess => (Ok (), base.delete compositeKey store)
    end.

Definition IndexedDbStorage_delete (key : ProjectNamespaceKeyFieldValue)
    : Async objectStore unit :=
  _ ← liftResult (openDbPromise this);
  deleteWithTransaction key.

Definition IndexedDbStorage : Storage objectStore := {|
  setCustomSignals := IndexedDbStorage_setCustomSignals;
  get := IndexedDbStorage_get;
  set := IndexedDbStorage_set;
  delete := IndexedDbStorage_delete
|}.
End IndexedDbStorage.

(** ** Sequences of calls on one instance *)

Inductive Call :=
  | callGet (key : ProjectNamespaceKeyFieldValue)
  | callSet (key : ProjectNamespaceKeyFieldValue) (value : val)
  | callDelete (key : ProjectNamespaceKeyFieldValue)
  | callSetCustomSignals (customSignals : val).

(** The state a call leaves behind, whether it resolves or rejects. *)
Definition perform {S} (this : Storage S) (call : Call) (s : S) : S :=
  match call with
  | callGet key => (get this key s).2
  | callSet key value => (set this key value s).2
  | callDelete key => (delete this key s).2
  | callSetCustomSignals customSignals =>
      (setCustomSignals this customSignals s).2
  end.

(** Each call meets the medium in a state of its own. *)
Fixpoint performAll {S} (this : Medium → Storage S)
    (calls : list (Medium * Call)) (s : S) : S :=
  match calls with
  | [] => s
  | (medium, call) :: calls =>
      performAll this calls (perform (this medium) call s)
  end.

#[export] Instance ProjectNamespaceKeyFieldValue_eq_dec :
  EqDecision ProjectNamespaceKeyFieldValue.
Proof. solve_decision. Defined.

(** The calls that write a value under [key]. *)
Definition writes (key : ProjectNamespaceKeyFieldValue) (call : Call) : bool :=
  match call with
  | callSet key' _ => bool_decide (key' = key)
  | callSetCustomSignals _ => bool_decide (custom_signals = key)
  | callGet _ | callDelete _ => false
  end.

(** ** The merge as the specification words it *)

#[export] Instance val_null_dec (v : val) : Decision (v = VNull).
Proof. destruct v; (by left) || (by right). Defined.

(** Overlay the new signals onto the stored ones (new values win), drop the
    entries whose value is null, replace numbers by their string
    representation. *)
Definition mergedSignals (newSignals storedSignals : CustomSignals)
    : CustomSignals :=
  let overlay := newSignals ∪ storedSignals in
  let kept := filter (λ entry, entry.2 ≠ VNull) overlay in
  (λ v, match v with VNumber n => VString (number_toString n) | _ => v end)
    <$> kept.

(** The previously stored signals, or the empty object: what
    [setCustomSignals] merges the new signals into on each backend. *)
Definition InMemoryStorage_stored (storage : storage) : val :=
  logicalOr (index storage "custom_signals") (VObject ∅).

Definition IndexedDbStorage_stored (this : IndexedDbStorage_fields)
    (store : objectStore) : val :=
  logicalOr (resolvedValue (store !! createCompositeKey this custom_signals))
    (VObject ∅).

(** The entry count of the merged, null-filtered result. *)
Definition signalCount (customSignals storedSignals : val) : nat :=
  size (filter (λ entry, entry.2 ≠ VNull)
          (ownProps customSignals ∪ ownProps storedSignals)).

(** A rejection with the custom-signal limit error. *)
Definition limitExceeded {A} (r : Result A) : bool :=
  match r with
  | Throw e =>
      match code e with
      | CUSTOM_SIGNAL_MAX_ALLOWED_SIGNALS => true
      | _ => false
      end
  | Ok _ => false
  end.

(** ** Strings without the delimiter *)

Fixpoint hasDelimiter (s : string) : bool :=
  match s with
  | EmptyString => false
  | String c s' => Ascii.eqb c ","%char || hasDelimiter s'
  end.

(** ** Calls and what they resolve with *)

(** A [Promise<void>] resolves with [undefined]. *)
Definition voidResult (r : Result unit) : Result val :=
  match r with
  | Ok _ => Ok VUndefined
  | Throw e => Throw e
  end.

(** A call on an instance: the value it resolves with or the error it
    rejects with, and the state it leaves. *)
Definition invoke {S} (this : Storage S) (call : Call) : Async S val :=
  λ s,
    match call with
    | callGet key => get this key s
    | callSet key value =>
        let '(r, s') := set this key value s in (voidResult r, s')
    | callDelete key =>
        let '(r, s') := delete this key s in (voidResult r, s')
    | callSetCustomSignals customSignals =>
        setCustomSignals this customSignals s
    end.


(** The key a call may change the record of. *)
Definition target (call : Call) : option ProjectNamespaceKeyFieldValue :=
  match call with
  | callGet _ => None
  | callSet key _ | callDelete key => Some key
  | callSetCustomSignals _ => Some custom_signals
  end.




(** The values the merge leaves in place: neither null nor a number. *)
Definition settled (v : val) : bool :=
  match v with
  | VNull | VNumber _ => false
  | _ => true
  end.


(** ** openDatabase *)

Definition DB_NAME : string := "firebase_remote_config".
Definition DB_VERSION : nat := 1.
Definition APP_NAMESPACE_STORE : string := "app_namespace_store".

(** The database the browser keeps under [DB_NAME]: its version and its
    object stores. A database that was never opened has version 0 and no
    store. *)
Record IDBDatabase := {
  version : nat;
  objectStores : gmap string objectStore
}.

Definition noDatabase : IDBDatabase :=
  {| version := 0; objectStores := ∅ |}.

(** [db.createObjectStore(name, ...)] adds an empty store; it throws when
    the database has a store of that name. *)
Definition createObjectStore (name : string) (db : IDBDatabase)
    : option IDBDatabase :=
  match objectStores db !! name with
  | Some _ => None
  | None =>
      Some {| version := version db;
              objectStores := <[name := ∅]> (objectStores db) |}
  end.

(** The [onupgradeneeded] handler: the switch on [event.oldVersion], whose
    only case is 0. *)
Definition onupgradeneeded (oldVersion : nat) (db : IDBDatabase)
    : option IDBDatabase :=
  match oldVersion with
  | 0 => createObjectStore APP_NAMESPACE_STORE db
  | _ => Some db
  end.

(** How the browser answers [indexedDB.open]: the outcome of the request
    when nothing else stands in its way, and the message of the error with
    which it refuses a version below the database's or reports an upgrade
    whose handler threw. *)
Record OpenMedium := {
  openRequest : RequestOutcome;
  refusalMessage : option string
}.

(** [indexedDB.open(DB_NAME, DB_VERSION)] with the three handlers: a
    database below [DB_VERSION] is upgraded (the handler runs on its old
    version) and then opened, one at [DB_VERSION] is opened as it is, one
    above it is refused. *)
Definition openDatabase (medium : OpenMedium) : Async IDBDatabase unit :=
  λ db,
    match openRequest medium with
    | throws m =>
        (Throw (ERROR_FACTORY_create STORAGE_OPEN (originalErrorMessage m)),
         db)
    | onerror m => (Throw (toFirebaseError m STORAGE_OPEN), db)
    | onsuccess =>
        if decide (DB_VERSION < version db) then
          (Throw (toFirebaseError (refusalMessage medium) STORAGE_OPEN), db)
        else if decide (version db < DB_VERSION) then
          match onupgradeneeded (version db) db with
          | Some upgraded =>
              (Ok (),
               {| version := DB_VERSION;
                  objectStores := objectStores upgraded |})
          | None =>
              (Throw (toFirebaseError (refusalMessage medium) STORAGE_OPEN),
               db)
          end
        else (Ok (), db)
    end.

(** The databases this file's [openDatabase] leaves: none, or one at
    [DB_VERSION] whose only store is [APP_NAMESPACE_STORE]. *)
Definition ownDatabase (db : IDBDatabase) : Prop :=
  db = noDatabase
  ∨ (version db = DB_VERSION
     ∧ ∃ records : objectStore,
         objectStores db = {[ APP_NAMESPACE_STORE := records ]}).

End Storage.

Arguments setCustomSignals {number S} _ _.
Arguments get {number S} _ _.
Arguments set {number S} _ _ _.
Arguments delete {number S} _ _.
Arguments createCompositeKey : simpl never.
Arguments keyString : simpl never.

(** ** Concrete data *)

(** Modelled from the spec: the value of [RC_CUSTOM_SIGNAL_MAX_ALLOWED_SIGNALS],
    declared in [../constants], which is not among the sources; the
    specification gives 100. *)
Definition constants : Constants := {|
  RC_CUSTOM_SIGNAL_MAX_ALLOWED_SIGNALS := 100
|}.

(** The stored and the new signals of the specification's example. *)
Definition exampleStored : gmap string (jsval Z) :=
  {[ "a" := VString "1"; "b" := VString "2" ]}.

Definition exampleNew : gmap string (jsval Z) :=
  {[ "b" := VNull; "c" := VNumber 3%Z ]}.

(** [n] numeric signals with distinct names. *)
Definition signalsUpTo (n : nat) : gmap string (jsval Z) :=
  list_to_map
    ((λ i : nat, ("signal" +:+ pretty i, VNumber (Z.of_nat i))) <$> seq 0 n).

(** An instance whose database has opened, and a medium that answers every
    request. *)
Definition exampleInstance : IndexedDbStorage_fields := {|
  appId := "1:1234567890:web:0a1b2c3d";
  appName := "[DEFAULT]";
  namespace := "firebase";
  openDbPromise := Ok ()
|}.

Definition answeringMedium : Medium := {|
  getRequest := onsuccess;
  putRequest := onsuccess;
  deleteRequest := onsuccess
|}.

(** A medium on which every request fails. *)
Definition failingMedium : Medium := {|
  getRequest := onerror (Some "QuotaExceededError");
  putRequest := onerror (Some "QuotaExceededError");
  deleteRequest := onerror (Some "QuotaExceededError")
|}.

(** Two instances that differ in app id and app name. *)
Definition delimiterInId : IndexedDbStorage_fields := {|
  appId := "a,b";
  appName := "c";
  namespace := "firebase";
  openDbPromise := Ok ()
|}.

Definition delimiterInName : IndexedDbStorage_fields := {|
  appId := "a";
  appName := "b,c";
  namespace := "firebase";
  openDbPromise := Ok ()
|}.

(** The example instance when its database failed to open. *)
Definition unopenedInstance : IndexedDbStorage_fields := {|
  appId := appId exampleInstance;
  appName := appName exampleInstance;
  namespace := namespace exampleInstance;
  openDbPromise :=
    Throw (ERROR_FACTORY_create STORAGE_OPEN (originalErrorMessage None))
|}.

(** The example's result, and an in-memory state and an object store that
    hold the example's stored signals beside another field. *)
Definition exampleMerged : jsval Z :=
  VObject {[ "a" := VString "1"; "c" := VString "3" ]}.

Definition exampleStorage : gmap string (jsval Z) :=
  {[ "custom_signals" := VObject exampleStored;
     "active_config_etag" := VString "etag-1" ]}.

Definition exampleStore : gmap string (@StoreRecord Z) :=
  put {| compositeKey := createCompositeKey exampleInstance custom_signals;
         value := VObject exampleStored |}
    (put {| compositeKey :=
              createCompositeKey exampleInstance active_config_etag;
            value := VString "etag-1" |} ∅).

(** States that hold as many signals as the limit allows. *)
Definition fullStorage : gmap string (jsval Z) :=
  {[ "custom_signals" := VObject (signalsUpTo 100);
     "active_config_etag" := VString "etag-1" ]}.

Definition fullStore : gmap string (@StoreRecord Z) :=
  put {| compositeKey := createCompositeKey exampleInstance custom_signals;
         value := VObject (signalsUpTo 100) |}
    (put {| compositeKey :=
              createCompositeKey exampleInstance active_config_etag;
            value := VString "etag-1" |} ∅).

(** The request to unset the signal [b]. *)
Definition unsetB : gmap string (jsval Z) := {[ "b" := VNull ]}.

Definition oneMore : jsval Z := VObject {[ "one_more" := VString "x" ]}.

(** Calls none of which writes [throttle_metadata]. *)
Definition exampleCalls : list (Medium * @Call Z) :=
  [ (answeringMedium, callSet active_config_etag (VString "etag-1"));
    (failingMedium, callSetCustomSignals (VObject exampleNew));
    (answeringMedium, callSetCustomSignals (VObject exampleNew));
    (answeringMedium, callDelete throttle_metadata);
    (answeringMedium, callGet throttle_metadata) ].

(** A second app on the same database. *)
Definition secondaryInstance : IndexedDbStorage_fields := {|
  appId := "1:1234567890:web:4e5f6a7b";
  appName := "secondary";
  namespace := "firebase";
  openDbPromise := Ok ()
|}.


(** The browser answering an open, and refusing one. *)
Definition answeringOpen : OpenMedium := {|
  openRequest := onsuccess;
  refusalMessage := None
|}.

Definition failingOpen : OpenMedium := {|
  openRequest := onerror (Some "SecurityError");
  refusalMessage := None
|}.

(** A database this file opened before, holding the example's store. *)
Definition openedDatabase : @IDBDatabase Z := {|
  version := DB_VERSION;
  objectStores := {[ APP_NAMESPACE_STORE := exampleStore ]}
|}.

(** * Properties *)

Section Properties.

Context {number : Type} `{!JsNumber number} {theConstants : Constants}.

Abbreviation val := (jsval number).
Abbreviation CustomSignals := (gmap string (jsval number)).
Abbreviation storage := (gmap string (jsval number)).
Abbreviation objectStore := (gmap string StoreRecord).

(** ** The merge function *)

Lemma entries_filter_map (l : list (string * val)) :
  map (λ '(k, v), (k, stringifyNumber v))
    (List.filter (λ '(_, v), negb (isNull v)) l)
  = prod_map id stringifyNumber <$> filter (λ entry, entry.2 ≠ VNull) l.
Proof.
  induction l as [|[k v] l IH]; [done|].
  cbn [List.filter]. destruct v; cbn [isNull negb].
  all: try (rewrite filter_cons_True by done; cbn; by rewrite IH).
  rewrite filter_cons_False by (cbn; tauto). apply IH.
Qed.

(** What the source computes from two objects is the merge of their
    property maps as the specification words it. *)
Lemma updatedSignals_mergedSignals (newSignals storedSignals : CustomSignals) :
  updatedSignals (VObject newSignals) (VObject storedSignals)
  = mergedSignals newSignals storedSignals.
Proof.
  unfold updatedSignals, mergedSignals. cbn [ownProps].
  rewrite entries_filter_map, list_to_map_fmap.
  by rewrite <- map_filter_alt.
Qed.

Lemma mergedSignals_lookup newSignals storedSignals k :
  mergedSignals newSignals storedSignals !! k
  = v ← (newSignals ∪ storedSignals) !! k;
    if isNull v then None else Some (stringifyNumber v).
Proof.
  unfold mergedSignals. rewrite lookup_fmap, map_lookup_filter.
  destruct ((newSignals ∪ storedSignals) !! k) as [v|]; [|done].
  cbn. destruct v; cbn;
    by rewrite ?option_guard_True, ?option_guard_False by (cbn; tauto).
Qed.

Lemma mergeCustomSignals_eq customSignals storedSignals :
  mergeCustomSignals customSignals storedSignals
  = if decide (RC_CUSTOM_SIGNAL_MAX_ALLOWED_SIGNALS
                 < size (updatedSignals customSignals storedSignals))
    then Throw (ERROR_FACTORY_create CUSTOM_SIGNAL_MAX_ALLOWED_SIGNALS
                  (maxSignals RC_CUSTOM_SIGNAL_MAX_ALLOWED_SIGNALS))
    else Ok (VObject (updatedSignals customSignals storedSignals)).
Proof. reflexivity. Qed.

(** C1, as amended: when the overlay of the new signals onto the stored
    ones, with the null entries dropped, has at most the maximum allowed
    number of entries, [mergeCustomSignals] returns that map with every
    number replaced by its string representation; in particular, when the
    maximum is at least 2, merging the stored [{a: "1", b: "2"}] with the
    new [{b: null, c: 3}] yields [{a: "1", c: "3"}]. *)
Theorem mergeCustomSignals_returns_merged :
  (∀ newSignals storedSignals : CustomSignals,
     (size (mergedSignals newSignals storedSignals)
        ≤ RC_CUSTOM_SIGNAL_MAX_ALLOWED_SIGNALS)%nat →
     mergeCustomSignals (VObject newSignals) (VObject storedSignals)
     = Ok (VObject (mergedSignals newSignals storedSignals)))
  ∧ (∀ three : number,
       (2 ≤ RC_CUSTOM_SIGNAL_MAX_ALLOWED_SIGNALS)%nat →
       mergeCustomSignals
         (VObject {[ "b" := VNull; "c" := VNumber three ]})
         (VObject {[ "a" := VString "1"; "b" := VString "2" ]})
       = Ok (VObject {[ "a" := VString "1";
                         "c" := VString (number_toString three) ]})).
Proof.
  assert (∀ newSignals storedSignals : CustomSignals,
            (size (mergedSignals newSignals storedSignals)
               ≤ RC_CUSTOM_SIGNAL_MAX_ALLOWED_SIGNALS)%nat →
            mergeCustomSignals (VObject newSignals) (VObject storedSignals)
            = Ok (VObject (mergedSignals newSignals storedSignals))) as Hmerge.
  { intros newSignals storedSignals Hsize.
    rewrite mergeCustomSignals_eq, updatedSignals_mergedSignals.
    destruct (decide _) as [Hlt|_]; [lia|done]. }
  split; [exact Hmerge|]. intros three Hmax.
  assert (mergedSignals
            ({[ "b" := VNull; "c" := VNumber three ]} : CustomSignals)
            {[ "a" := VString "1"; "b" := VString "2" ]}
          = {[ "a" := VString "1";
               "c" := VString (number_toString three) ]}) as Hexample.
  { apply map_eq. intros k. rewrite mergedSignals_lookup.
    destruct (decide (k = "a")) as [->|Ha]; [done|].
    destruct (decide (k = "b")) as [->|Hb]; [done|].
    destruct (decide (k = "c")) as [->|Hc]; [done|].
    rewrite lookup_union, !lookup_insert_ne, !lookup_singleton_ne by done.
    done. }
  rewrite Hmerge; rewrite Hexample; [done|].
  rewrite map_size_insert_None by done. by rewrite map_size_singleton.
Qed.

(** ** The limit *)

Lemma updatedSignals_size customSignals storedSignals :
  size (updatedSignals customSignals storedSignals)
  = signalCount customSignals storedSignals.
Proof.
  unfold updatedSignals, signalCount.
  rewrite entries_filter_map, list_to_map_fmap, map_size_fmap.
  by rewrite <- map_filter_alt.
Qed.

Lemma mergeCustomSignals_limit customSignals storedSignals :
  (limitExceeded (mergeCustomSignals customSignals storedSignals) = true
   ↔ RC_CUSTOM_SIGNAL_MAX_ALLOWED_SIGNALS
       < signalCount customSignals storedSignals)
  ∧ (isOk (mergeCustomSignals customSignals storedSignals) = true
     ↔ (signalCount customSignals storedSignals
          ≤ RC_CUSTOM_SIGNAL_MAX_ALLOWED_SIGNALS)%nat).
Proof.
  rewrite mergeCustomSignals_eq, updatedSignals_size.
  destruct (decide _); cbn; split; split; (done || lia).
Qed.

(** ** What setCustomSignals does on each backend *)

Lemma keyString_custom_signals : keyString custom_signals = "custom_signals".
Proof. reflexivity. Qed.

Lemma index_insert (storage : storage) key v :
  index (<[key := v]> storage) key = v.
Proof. unfold index. by rewrite lookup_insert_eq. Qed.

Lemma InMemoryStorage_setCustomSignals_eq customSignals storage :
  setCustomSignals InMemoryStorage customSignals storage
  = match mergeCustomSignals customSignals
            (InMemoryStorage_stored storage) with
    | Throw e => (Throw e, storage)
    | Ok merged => (Ok merged, <["custom_signals" := merged]> storage)
    end.
Proof.
  cbn. unfold InMemoryStorage_setCustomSignals.
  destruct (mergeCustomSignals _ _); [|done]. by rewrite index_insert.
Qed.

Lemma IndexedDbStorage_setCustomSignals_eq this medium customSignals store :
  openDbPromise this = Ok () →
  getRequest medium = onsuccess →
  setCustomSignals (IndexedDbStorage this medium) customSignals store
  = match mergeCustomSignals customSignals
            (IndexedDbStorage_stored this store) with
    | Throw e => (Throw e, store)
    | Ok merged =>
        match putRequest medium with
        | onsuccess =>
            (Ok merged,
             put {| compositeKey := createCompositeKey this custom_signals;
                    value := merged |} store)
        | onerror m => (Throw (toFirebaseError m STORAGE_SET), store)
        | throws m =>
            (Throw (ERROR_FACTORY_create STORAGE_SET (originalErrorMessage m)),
             store)
        end
    end.
Proof.
  intros Hopen Hget. cbn.
  unfold IndexedDbStorage_setCustomSignals, mbind, Async_bind, liftResult,
    getWithTransaction, setWithTransaction, mret, Async_ret.
  rewrite Hopen, Hget.
  destruct (mergeCustomSignals _ _); [|done].
  by destruct (putRequest medium).
Qed.

Lemma IndexedDbStorage_get_eq this medium key store :
  openDbPromise this = Ok () →
  getRequest medium = onsuccess →
  get (IndexedDbStorage this medium) key store
  = (Ok (resolvedValue (store !! createCompositeKey this key)), store).
Proof.
  intros Hopen Hget. cbn.
  unfold IndexedDbStorage_get, mbind, Async_bind, liftResult,
    getWithTransaction.
  by rewrite Hopen, Hget.
Qed.

Lemma IndexedDbStorage_setCustomSignals_unopened this medium customSignals
    store e :
  openDbPromise this = Throw e →
  setCustomSignals (IndexedDbStorage this medium) customSignals store
  = (Throw e, store).
Proof.
  intros Hopen. cbn.
  unfold IndexedDbStorage_setCustomSignals, mbind, Async_bind, liftResult.
  by rewrite Hopen.
Qed.

Lemma IndexedDbStorage_setCustomSignals_unread this medium customSignals
    store :
  openDbPromise this = Ok () →
  getRequest medium ≠ onsuccess →
  ∃ e, setCustomSignals (IndexedDbStorage this medium) customSignals store
       = (Throw e, store) ∧ code e = STORAGE_GET.
Proof.
  intros Hopen Hget. cbn.
  unfold IndexedDbStorage_setCustomSignals, mbind, Async_bind, liftResult,
    getWithTransaction.
  rewrite Hopen. destruct (getRequest medium); [done|eauto..].
Qed.

Lemma resolved_unit (r : Result unit) : r = Ok () ∨ ∃ e, r = Throw e.
Proof. destruct r as [[]|e]; eauto. Qed.

Lemma InMemoryStorage_setCustomSignals_Ok customSignals storage merged
    storage' :
  setCustomSignals InMemoryStorage customSignals storage
  = (Ok merged, storage') →
  mergeCustomSignals customSignals
    (InMemoryStorage_stored storage) = Ok merged
  ∧ storage' = <["custom_signals" := merged]> storage.
Proof.
  rewrite InMemoryStorage_setCustomSignals_eq.
  destruct (mergeCustomSignals _ _); [|done]. by intros [= -> <-].
Qed.

Lemma IndexedDbStorage_setCustomSignals_Ok this medium customSignals store
    merged store' :
  setCustomSignals (IndexedDbStorage this medium) customSignals store
  = (Ok merged, store') →
  mergeCustomSignals customSignals
    (IndexedDbStorage_stored this store) = Ok merged
  ∧ store' = put {| compositeKey := createCompositeKey this custom_signals;
                    value := merged |} store
  ∧ openDbPromise this = Ok ().
Proof.
  intros Hset.
  destruct (resolved_unit (openDbPromise this)) as [Hopen|[e Hopen]].
  2: { by rewrite (IndexedDbStorage_setCustomSignals_unopened
                     _ _ _ _ e Hopen) in Hset. }
  destruct (decide (getRequest medium = onsuccess)) as [Hget|Hget].
  2: { destruct (IndexedDbStorage_setCustomSignals_unread this medium
                   customSignals store Hopen Hget) as (e & He & _).
       by rewrite He in Hset. }
  rewrite IndexedDbStorage_setCustomSignals_eq in Hset by done.
  destruct (mergeCustomSignals _ _) as [m|e]; [|done].
  destruct (putRequest medium); [|done..].
  by injection Hset as -> <-.
Qed.

Lemma IndexedDbStorage_get_put this medium key value store :
  openDbPromise this = Ok () →
  getRequest medium = onsuccess →
  get (IndexedDbStorage this medium) key
    (put {| compositeKey := createCompositeKey this key; value := value |}
       store)
  = (Ok value,
     put {| compositeKey := createCompositeKey this key; value := value |}
       store).
Proof.
  intros Hopen Hget. rewrite IndexedDbStorage_get_eq by done.
  unfold put. cbn. by rewrite lookup_insert_eq.
Qed.

Lemma IndexedDbStorage_setCustomSignals_over_limit this medium customSignals
    store :
  RC_CUSTOM_SIGNAL_MAX_ALLOWED_SIGNALS
    < signalCount customSignals (IndexedDbStorage_stored this store) →
  setCustomSignals (IndexedDbStorage this medium) customSignals store
  = (match openDbPromise this with
     | Throw e => Throw e
     | Ok _ =>
         match getRequest medium with
         | onsuccess =>
             Throw (ERROR_FACTORY_create CUSTOM_SIGNAL_MAX_ALLOWED_SIGNALS
                      (maxSignals RC_CUSTOM_SIGNAL_MAX_ALLOWED_SIGNALS))
         | onerror m => Throw (toFirebaseError m STORAGE_GET)
         | throws m =>
             Throw (ERROR_FACTORY_create STORAGE_GET (originalErrorMessage m))
         end
     end,
     store).
Proof.
  intros Hover. unfold IndexedDbStorage_stored in Hover. cbn.
  unfold IndexedDbStorage_setCustomSignals, mbind, Async_bind, liftResult,
    getWithTransaction.
  destruct (openDbPromise this) as [[]|e]; [|done].
  destruct (getRequest medium); [|done..].
  rewrite mergeCustomSignals_eq, updatedSignals_size.
  destruct (decide _); [done|lia].
Qed.

(** C2: [mergeCustomSignals] fails with the custom-signal limit error
    exactly when the entry count of the merged, null-filtered result
    exceeds the maximum, and succeeds exactly when it does not, so at the
    maximum itself it succeeds; the same holds of [setCustomSignals] on the
    volatile backend, and on the persistent backend once the database is
    open and the medium answers the requests. *)
Theorem limit_error_iff_count_exceeds (customSignals : val) :
  (∀ storedSignals,
     (limitExceeded (mergeCustomSignals customSignals storedSignals) = true
      ↔ RC_CUSTOM_SIGNAL_MAX_ALLOWED_SIGNALS
          < signalCount customSignals storedSignals)
     ∧ (isOk (mergeCustomSignals customSignals storedSignals) = true
        ↔ (signalCount customSignals storedSignals
             ≤ RC_CUSTOM_SIGNAL_MAX_ALLOWED_SIGNALS)%nat))
  ∧ (∀ storage,
       let storedSignals := InMemoryStorage_stored storage in
       let result :=
         (setCustomSignals InMemoryStorage customSignals storage).1 in
       (limitExceeded result = true
        ↔ RC_CUSTOM_SIGNAL_MAX_ALLOWED_SIGNALS
            < signalCount customSignals storedSignals)
       ∧ (isOk result = true
          ↔ (signalCount customSignals storedSignals
               ≤ RC_CUSTOM_SIGNAL_MAX_ALLOWED_SIGNALS)%nat))
  ∧ (∀ this medium store,
       openDbPromise this = Ok () →
       getRequest medium = onsuccess →
       let storedSignals :=
         IndexedDbStorage_stored this store in
       let result :=
         (setCustomSignals (IndexedDbStorage this medium) customSignals
            store).1 in
       (limitExceeded result = true
        ↔ RC_CUSTOM_SIGNAL_MAX_ALLOWED_SIGNALS
            < signalCount customSignals storedSignals)
       ∧ (putRequest medium = onsuccess →
          (isOk result = true
           ↔ (signalCount customSignals storedSignals
                ≤ RC_CUSTOM_SIGNAL_MAX_ALLOWED_SIGNALS)%nat))).
Proof.
  split; [apply mergeCustomSignals_limit|]. split.
  - intros storage storedSignals result. subst result storedSignals.
    rewrite InMemoryStorage_setCustomSignals_eq.
    pose proof (mergeCustomSignals_limit customSignals
                  (InMemoryStorage_stored storage)) as H.
    by destruct (mergeCustomSignals _ _).
  - intros this medium store Hopen Hget storedSignals result.
    subst result storedSignals.
    rewrite IndexedDbStorage_setCustomSignals_eq by done.
    pose proof (mergeCustomSignals_limit customSignals
                  (IndexedDbStorage_stored this store)) as [Hlim Hok].
    destruct (mergeCustomSignals _ _) as [merged|e].
    + split; [by destruct (putRequest medium)|]. by intros ->.
    + done.
Qed.

(** C3: when the merge of the new signals with the stored ones exceeds the
    maximum, [setCustomSignals] rejects and leaves the whole state as it
    was, on both backends; the rejection is the limit error (on the
    persistent backend, once the database is open and the read has been
    answered), and no write is attempted: the outcome does not depend on
    what the medium would answer to one. *)
Theorem setCustomSignals_over_limit_no_write (customSignals : val) :
  (∀ storage,
     RC_CUSTOM_SIGNAL_MAX_ALLOWED_SIGNALS
       < signalCount customSignals (InMemoryStorage_stored storage) →
     ∃ e, setCustomSignals InMemoryStorage customSignals storage
          = (Throw e, storage)
          ∧ code e = CUSTOM_SIGNAL_MAX_ALLOWED_SIGNALS)
  ∧ (∀ this medium store,
       RC_CUSTOM_SIGNAL_MAX_ALLOWED_SIGNALS
         < signalCount customSignals (IndexedDbStorage_stored this store) →
       (∃ e, setCustomSignals (IndexedDbStorage this medium) customSignals
               store
             = (Throw e, store)
             ∧ (openDbPromise this = Ok () →
                getRequest medium = onsuccess →
                code e = CUSTOM_SIGNAL_MAX_ALLOWED_SIGNALS))
       ∧ (∀ medium',
            getRequest medium' = getRequest medium →
            setCustomSignals (IndexedDbStorage this medium') customSignals
              store
            = setCustomSignals (IndexedDbStorage this medium) customSignals
                store)).
Proof.
  split.
  - intros storage Hover. rewrite InMemoryStorage_setCustomSignals_eq.
    rewrite mergeCustomSignals_eq, updatedSignals_size.
    destruct (decide _); [eauto|lia].
  - intros this medium store Hover. split.
    + rewrite IndexedDbStorage_setCustomSignals_over_limit by done.
      destruct (openDbPromise this) as [[]|e].
      * destruct (getRequest medium); eexists; (split; [reflexivity|]);
          by intros _ ?.
      * exists e. split; [done|]. by intros ?.
    + intros medium' Hsame.
      rewrite !IndexedDbStorage_setCustomSignals_over_limit by done.
      by rewrite Hsame.
Qed.

(** C5: a [setCustomSignals] that resolves returns the result of
    [mergeCustomSignals] on the new signals and the stored ones (or the
    empty object), and a [getCustomSignals] that follows returns the same
    value; and it does resolve whenever that merge is within the limit (on
    the persistent backend, when the medium answers). *)
Theorem setCustomSignals_returns_persisted (customSignals : val) :
  (∀ storage,
     let storedSignals := InMemoryStorage_stored storage in
     (∀ merged storage',
        setCustomSignals InMemoryStorage customSignals storage
        = (Ok merged, storage') →
        mergeCustomSignals customSignals storedSignals = Ok merged
        ∧ getCustomSignals InMemoryStorage storage' = (Ok merged, storage'))
     ∧ (∀ merged,
          mergeCustomSignals customSignals storedSignals = Ok merged →
          (setCustomSignals InMemoryStorage customSignals storage).1
          = Ok merged))
  ∧ (∀ this medium store,
       let storedSignals :=
         IndexedDbStorage_stored this store in
       (∀ merged store',
          setCustomSignals (IndexedDbStorage this medium) customSignals store
          = (Ok merged, store') →
          mergeCustomSignals customSignals storedSignals = Ok merged
          ∧ ∀ medium',
              getRequest medium' = onsuccess →
              getCustomSignals (IndexedDbStorage this medium') store'
              = (Ok merged, store'))
       ∧ (∀ merged,
            openDbPromise this = Ok () →
            getRequest medium = onsuccess →
            putRequest medium = onsuccess →
            mergeCustomSignals customSignals storedSignals = Ok merged →
            (setCustomSignals (IndexedDbStorage this medium) customSignals
               store).1
            = Ok merged)).
Proof.
  split.
  - intros storage storedSignals. subst storedSignals. split.
    + intros merged storage' [Hmerge ->]%InMemoryStorage_setCustomSignals_Ok.
      split; [done|].
      unfold getCustomSignals. cbn. unfold InMemoryStorage_get.
      by rewrite <- keyString_custom_signals, index_insert.
    + intros merged Hmerge.
      by rewrite InMemoryStorage_setCustomSignals_eq, Hmerge.
  - intros this medium store storedSignals. subst storedSignals. split.
    + intros merged store'
        (Hmerge & -> & Hopen)%IndexedDbStorage_setCustomSignals_Ok.
      split; [done|]. intros medium' Hget'.
      by apply IndexedDbStorage_get_put.
    + intros merged Hopen Hget Hput Hmerge.
      rewrite IndexedDbStorage_setCustomSignals_eq by done.
      by rewrite Hmerge, Hput.
Qed.

(** ** Round trips *)

(** C6: on both backends a [set] of any value under any key, followed by a
    [get] of that key, returns the value (on the persistent backend, when
    the database is open and the medium answers both requests). *)
Theorem set_then_get (key : ProjectNamespaceKeyFieldValue) (value : val) :
  (∀ storage,
     ∃ storage',
       set InMemoryStorage key value storage = (Ok (), storage')
       ∧ get InMemoryStorage key storage' = (Ok value, storage'))
  ∧ (∀ this medium medium' store,
       openDbPromise this = Ok () →
       putRequest medium = onsuccess →
       getRequest medium' = onsuccess →
       ∃ store',
         set (IndexedDbStorage this medium) key value store = (Ok (), store')
         ∧ get (IndexedDbStorage this medium') key store'
           = (Ok value, store')).
Proof.
  split.
  - intros storage. eexists. split; [reflexivity|].
    cbn. unfold InMemoryStorage_get. by rewrite index_insert.
  - intros this medium medium' store Hopen Hput Hget. eexists. split.
    + cbn. unfold IndexedDbStorage_set, mbind, Async_bind, liftResult,
        setWithTransaction. by rewrite Hopen, Hput.
    + by apply IndexedDbStorage_get_put.
Qed.

(** C7: on both backends a [delete] of any key, followed by a [get] of that
    key, returns [undefined], whatever the state held before (on the
    persistent backend, when the database is open and the medium answers
    both requests). *)
Theorem delete_then_get (key : ProjectNamespaceKeyFieldValue) :
  (∀ storage,
     ∃ storage',
       delete InMemoryStorage key storage = (Ok (), storage')
       ∧ get InMemoryStorage key storage' = (Ok VUndefined, storage'))
  ∧ (∀ this medium medium' store,
       openDbPromise this = Ok () →
       deleteRequest medium = onsuccess →
       getRequest medium' = onsuccess →
       ∃ store',
         delete (IndexedDbStorage this medium) key store = (Ok (), store')
         ∧ get (IndexedDbStorage this medium') key store'
           = (Ok VUndefined, store')).
Proof.
  split.
  - intros storage. eexists. split; [reflexivity|].
    cbn. unfold InMemoryStorage_get. by rewrite index_insert.
  - intros this medium medium' store Hopen Hdel Hget. eexists. split.
    + cbn. unfold IndexedDbStorage_delete, mbind, Async_bind, liftResult,
        deleteWithTransaction. by rewrite Hopen, Hdel.
    + rewrite IndexedDbStorage_get_eq by done. by rewrite lookup_delete_eq.
Qed.

(** ** Keys *)

Lemma keyString_inj key key' : keyString key = keyString key' → key = key'.
Proof. destruct key, key'; unfold keyString; congruence. Qed.

Lemma createCompositeKey_eq this key :
  createCompositeKey this key
  = appId this +:+ "," +:+ appName this +:+ "," +:+ namespace this
      +:+ "," +:+ keyString key.
Proof. reflexivity. Qed.

(** One instance keeps its keys apart. *)
Lemma createCompositeKey_key_inj this key key' :
  createCompositeKey this key = createCompositeKey this key' → key = key'.
Proof.
  rewrite !createCompositeKey_eq. intros H.
  do 6 apply (inj (String.app _)) in H. by apply keyString_inj.
Qed.

(** ** A key that was never written *)

Lemma InMemoryStorage_perform_unwritten key call storage :
  writes key call = false →
  index storage (keyString key) = VUndefined →
  index (perform InMemoryStorage call storage) (keyString key) = VUndefined.
Proof.
  intros Hcall Hkey. destruct call as [k|k v|k|customSignals]; cbn in *.
  - done.
  - apply bool_decide_eq_false in Hcall. unfold index.
    rewrite lookup_insert_ne; [done|]. by intros ?%keyString_inj.
  - destruct (decide (k = key)) as [->|Hne]; [by rewrite index_insert|].
    unfold index. rewrite lookup_insert_ne; [done|]. by intros ?%keyString_inj.
  - apply bool_decide_eq_false in Hcall.
    unfold InMemoryStorage_setCustomSignals.
    destruct (mergeCustomSignals _ _); [|done]. cbn. unfold index.
    rewrite lookup_insert_ne; [done|].
    rewrite <- keyString_custom_signals. by intros ?%keyString_inj.
Qed.

Lemma InMemoryStorage_performAll_unwritten key calls storage :
  Forall (λ c, writes key c.2 = false) calls →
  index storage (keyString key) = VUndefined →
  index (performAll (λ _, InMemoryStorage) calls storage) (keyString key)
  = VUndefined.
Proof.
  intros Hcalls. revert storage.
  induction Hcalls as [|[medium call] calls Hcall _ IH]; intros storage Hkey.
  - done.
  - cbn. apply IH. by apply InMemoryStorage_perform_unwritten.
Qed.

Lemma IndexedDbStorage_perform_unwritten this medium key call store :
  writes key call = false →
  store !! createCompositeKey this key = None →
  perform (IndexedDbStorage this medium) call store
    !! createCompositeKey this key = None.
Proof.
  intros Hcall Hkey.
  destruct call as [k|k v|k|customSignals]; cbn in *.
  - unfold IndexedDbStorage_get, mbind, Async_bind, liftResult,
      getWithTransaction.
    destruct (openDbPromise this); [|done]. by destruct (getRequest medium).
  - apply bool_decide_eq_false in Hcall.
    unfold IndexedDbStorage_set, mbind, Async_bind, liftResult,
      setWithTransaction.
    destruct (openDbPromise this); [|done].
    destruct (putRequest medium); [|done..]. unfold put. cbn.
    rewrite lookup_insert_ne; [done|]. by intros ?%createCompositeKey_key_inj.
  - unfold IndexedDbStorage_delete, mbind, Async_bind, liftResult,
      deleteWithTransaction.
    destruct (openDbPromise this); [|done].
    destruct (deleteRequest medium); [|done..]. cbn.
    by rewrite lookup_delete_None; right.
  - apply bool_decide_eq_false in Hcall.
    unfold IndexedDbStorage_setCustomSignals, mbind, Async_bind, liftResult,
      getWithTransaction, setWithTransaction, mret, Async_ret.
    destruct (openDbPromise this); [|done].
    destruct (getRequest medium); [|done..].
    destruct (mergeCustomSignals _ _); [|done].
    destruct (putRequest medium); [|done..]. unfold put. cbn.
    rewrite lookup_insert_ne; [done|]. by intros ?%createCompositeKey_key_inj.
Qed.

Lemma IndexedDbStorage_performAll_unwritten this key calls store :
  Forall (λ c, writes key c.2 = false) calls →
  store !! createCompositeKey this key = None →
  performAll (IndexedDbStorage this) calls store
    !! createCompositeKey this key = None.
Proof.
  intros Hcalls. revert store.
  induction Hcalls as [|[medium call] calls Hcall _ IH]; intros store Hkey.
  - done.
  - cbn. apply IH. by apply IndexedDbStorage_perform_unwritten.
Qed.

(** C8: a [get] of a key under which the state holds no record resolves
    with [undefined] and does not reject; that is the state of every key no
    call has written on the instance: on the volatile backend after any
    calls on a new instance, on the persistent backend after any calls of
    the instance on an empty store (there, when the database is open and
    the medium answers the request). *)
Theorem get_never_written (key : ProjectNamespaceKeyFieldValue) :
  (∀ storage,
     storage !! keyString key = None →
     get InMemoryStorage key storage = (Ok VUndefined, storage))
  ∧ (∀ this medium store,
       openDbPromise this = Ok () →
       getRequest medium = onsuccess →
       store !! createCompositeKey this key = None →
       get (IndexedDbStorage this medium) key store = (Ok VUndefined, store))
  ∧ (∀ calls : list (Medium * Call),
       Forall (λ c, writes key c.2 = false) calls →
       (let storage :=
          performAll (λ _, InMemoryStorage) calls InMemoryStorage_new in
        get InMemoryStorage key storage = (Ok VUndefined, storage))
       ∧ (∀ this medium,
            openDbPromise this = Ok () →
            getRequest medium = onsuccess →
            let store := performAll (IndexedDbStorage this) calls ∅ in
            get (IndexedDbStorage this medium) key store
            = (Ok VUndefined, store))).
Proof.
  split; [|split].
  - intros storage Habsent. cbn. unfold InMemoryStorage_get, index.
    by rewrite Habsent.
  - intros this medium store Hopen Hget Habsent.
    rewrite IndexedDbStorage_get_eq by done. by rewrite Habsent.
  - intros calls Hcalls. split.
    + cbn. unfold InMemoryStorage_get.
      by rewrite InMemoryStorage_performAll_unwritten.
    + intros this medium Hopen Hget store.
      rewrite IndexedDbStorage_get_eq by done.
      unfold store. by rewrite IndexedDbStorage_performAll_unwritten.
Qed.

(** ** What the merged map holds *)

Lemma mergeCustomSignals_Ok customSignals storedSignals result :
  mergeCustomSignals customSignals storedSignals = Ok result →
  result = VObject (updatedSignals customSignals storedSignals).
Proof.
  rewrite mergeCustomSignals_eq. destruct (decide _); [done|]. by intros [= <-].
Qed.

Lemma mergedSignals_strings (newSignals storedSignals : CustomSignals) :
  map_Forall (λ _ v, isSignalValue v = true) newSignals →
  map_Forall (λ _ v, isSignalValue v = true) storedSignals →
  map_Forall (λ _ v, isString v = true)
    (mergedSignals newSignals storedSignals).
Proof.
  intros Hnew Hstored k v. rewrite mergedSignals_lookup.
  destruct ((newSignals ∪ storedSignals) !! k) as [v0|] eqn:Hk; [|done].
  assert (isSignalValue v0 = true) as Htyped.
  { apply lookup_union_Some_raw in Hk as [Hk|[_ Hk]].
    - by apply (Hnew k).
    - by apply (Hstored k). }
  cbn. destruct v0; cbn in *; try done; by intros [= <-].
Qed.

(** C9: when the values of the new and of the stored signals are strings,
    numbers or null, every value of the object [mergeCustomSignals] returns
    is a string, and so is every value of the object a [setCustomSignals]
    that resolves leaves under [custom_signals], on both backends. *)
Theorem merged_values_are_strings (newSignals storedSignals : CustomSignals) :
  map_Forall (λ _ v, isSignalValue v = true) newSignals →
  map_Forall (λ _ v, isSignalValue v = true) storedSignals →
  (∀ result,
     mergeCustomSignals (VObject newSignals) (VObject storedSignals)
     = Ok result →
     ∃ merged,
       result = VObject merged
       ∧ map_Forall (λ _ v, isString v = true) merged)
  ∧ (∀ storage result storage',
       InMemoryStorage_stored storage = VObject storedSignals →
       setCustomSignals InMemoryStorage (VObject newSignals) storage
       = (Ok result, storage') →
       ∃ merged,
         index storage' "custom_signals" = VObject merged
         ∧ map_Forall (λ _ v, isString v = true) merged)
  ∧ (∀ this medium store result store',
       IndexedDbStorage_stored this store = VObject storedSignals →
       setCustomSignals (IndexedDbStorage this medium) (VObject newSignals)
         store
       = (Ok result, store') →
       ∃ merged,
         resolvedValue (store' !! createCompositeKey this custom_signals)
         = VObject merged
         ∧ map_Forall (λ _ v, isString v = true) merged).
Proof.
  intros Hnew Hstored.
  assert (∀ result,
            mergeCustomSignals (VObject newSignals) (VObject storedSignals)
            = Ok result →
            ∃ merged,
              result = VObject merged
              ∧ map_Forall (λ _ v, isString v = true) merged) as Hmerge.
  { intros result ->%mergeCustomSignals_Ok. eexists. split; [done|].
    rewrite updatedSignals_mergedSignals. by apply mergedSignals_strings. }
  split; [done|]. split.
  - intros storage result storage' Hread
      [Hm ->]%InMemoryStorage_setCustomSignals_Ok.
    rewrite Hread in Hm. rewrite index_insert. by apply Hmerge.
  - intros this medium store result store' Hread
      (Hm & -> & _)%IndexedDbStorage_setCustomSignals_Ok.
    rewrite Hread in Hm. unfold put. cbn. rewrite lookup_insert_eq. cbn.
    by apply Hmerge.
Qed.

(** ** Unsetting every signal *)

Lemma mergedSignals_all_null (newSignals : CustomSignals) :
  map_Forall (λ _ v, v = VNull) newSignals →
  mergedSignals newSignals ∅ = ∅.
Proof.
  intros Hnull. apply map_eq. intros k.
  rewrite mergedSignals_lookup, (right_id_L ∅ (∪)), lookup_empty.
  destruct (newSignals !! k) as [v|] eqn:Hk; [|done].
  by rewrite (Hnull k v Hk).
Qed.

Lemma mergeCustomSignals_all_null (newSignals : CustomSignals) :
  map_Forall (λ _ v, v = VNull) newSignals →
  mergeCustomSignals (VObject newSignals) (VObject ∅) = Ok (VObject ∅).
Proof.
  intros Hnull.
  rewrite mergeCustomSignals_eq, updatedSignals_mergedSignals,
    mergedSignals_all_null by done.
  rewrite map_size_empty. destruct (decide _); [lia|done].
Qed.

(** C10: on a store that holds nothing under [custom_signals],
    [setCustomSignals] with an object whose values are all null (the empty
    object among them) resolves with the empty object and stores it, and
    the [getCustomSignals] that follows returns it; and after any
    [setCustomSignals] that resolves, [getCustomSignals] returns an object,
    not [undefined] (on the persistent backend, when the database is open
    and the medium answers the requests). *)
Theorem setCustomSignals_all_null_stores_empty :
  (∀ newSignals : CustomSignals,
     map_Forall (λ _ v, v = VNull) newSignals →
     (∀ storage,
        index storage "custom_signals" = VUndefined →
        ∃ storage',
          setCustomSignals InMemoryStorage (VObject newSignals) storage
          = (Ok (VObject ∅), storage')
          ∧ getCustomSignals InMemoryStorage storage'
            = (Ok (VObject ∅), storage'))
     ∧ (∀ this medium medium' store,
          store !! createCompositeKey this custom_signals = None →
          openDbPromise this = Ok () →
          getRequest medium = onsuccess →
          putRequest medium = onsuccess →
          getRequest medium' = onsuccess →
          ∃ store',
            setCustomSignals (IndexedDbStorage this medium)
              (VObject newSignals) store
            = (Ok (VObject ∅), store')
            ∧ getCustomSignals (IndexedDbStorage this medium') store'
              = (Ok (VObject ∅), store')))
  ∧ (∀ customSignals result,
       (∀ storage storage',
          setCustomSignals InMemoryStorage customSignals storage
          = (Ok result, storage') →
          ∃ present,
            getCustomSignals InMemoryStorage storage'
            = (Ok (VObject present), storage'))
       ∧ (∀ this medium medium' store store',
            setCustomSignals (IndexedDbStorage this medium) customSignals
              store
            = (Ok result, store') →
            getRequest medium' = onsuccess →
            ∃ present,
              getCustomSignals (IndexedDbStorage this medium') store'
              = (Ok (VObject present), store'))).
Proof.
  split.
  - intros newSignals Hnull. split.
    + intros storage Habsent. eexists.
      rewrite InMemoryStorage_setCustomSignals_eq.
      unfold InMemoryStorage_stored. rewrite Habsent. cbn [logicalOr truthy].
      rewrite mergeCustomSignals_all_null by done. split; [done|].
      unfold getCustomSignals. cbn. unfold InMemoryStorage_get.
      by rewrite <- keyString_custom_signals, index_insert.
    + intros this medium medium' store Habsent Hopen Hget Hput Hget'. eexists.
      rewrite IndexedDbStorage_setCustomSignals_eq by done.
      unfold IndexedDbStorage_stored. rewrite Habsent.
      cbn [resolvedValue logicalOr truthy].
      rewrite mergeCustomSignals_all_null, Hput by done. split; [done|].
      by apply IndexedDbStorage_get_put.
  - intros customSignals result. split.
    + intros storage storage' [Hm ->]%InMemoryStorage_setCustomSignals_Ok.
      apply mergeCustomSignals_Ok in Hm as ->. eexists.
      unfold getCustomSignals. cbn. unfold InMemoryStorage_get.
      by rewrite <- keyString_custom_signals, index_insert.
    + intros this medium medium' store store'
        (Hm & -> & Hopen)%IndexedDbStorage_setCustomSignals_Ok Hget'.
      apply mergeCustomSignals_Ok in Hm as ->. eexists.
      by apply IndexedDbStorage_get_put.
Qed.

(** ** Composite keys across instances *)

Lemma append_cons c s r : String c s +:+ r = String c (s +:+ r).
Proof. reflexivity. Qed.

Lemma append_empty r : "" +:+ r = r.
Proof. reflexivity. Qed.

Lemma hasDelimiter_app_delimiter s r : hasDelimiter (s +:+ "," +:+ r) = true.
Proof.
  induction s as [|c s IH]; [done|].
  rewrite append_cons. cbn [hasDelimiter]. rewrite IH. apply orb_true_r.
Qed.

(** A string is cut at its first delimiter in one way only. *)
Lemma cut_at_first_delimiter s1 s2 r1 r2 :
  hasDelimiter s1 = false →
  hasDelimiter s2 = false →
  s1 +:+ "," +:+ r1 = s2 +:+ "," +:+ r2 →
  s1 = s2 ∧ r1 = r2.
Proof.
  revert s2. induction s1 as [|c1 s1 IH]; intros [|c2 s2] H1 H2;
    rewrite ?append_cons, ?append_empty; cbn [hasDelimiter] in *; intros Heq.
  - by injection Heq.
  - injection Heq as <- _. done.
  - injection Heq as -> _. done.
  - apply orb_false_iff in H1 as [_ H1]. apply orb_false_iff in H2 as [_ H2].
    injection Heq as -> Heq. destruct (IH s2 H1 H2 Heq) as [-> ->]. done.
Qed.

(** And at its last delimiter. *)
Lemma cut_at_last_delimiter s1 s2 r1 r2 :
  hasDelimiter r1 = false →
  hasDelimiter r2 = false →
  s1 +:+ "," +:+ r1 = s2 +:+ "," +:+ r2 →
  s1 = s2 ∧ r1 = r2.
Proof.
  revert s2. induction s1 as [|c1 s1 IH]; intros [|c2 s2] H1 H2;
    rewrite ?append_cons, ?append_empty; intros Heq.
  - by injection Heq.
  - injection Heq as _ ->.
    pose proof (hasDelimiter_app_delimiter s2 r2) as H.
    rewrite append_cons, append_empty in H. congruence.
  - injection Heq as _ <-.
    pose proof (hasDelimiter_app_delimiter s1 r1) as H.
    rewrite append_cons, append_empty in H. congruence.
  - injection Heq as -> Heq. destruct (IH s2 H1 H2 Heq) as [-> ->]. done.
Qed.

Lemma keyString_no_delimiter key : hasDelimiter (keyString key) = false.
Proof. by destruct key. Qed.

(** C4, as amended: among instances whose app id and app name do not
    contain the delimiter, [createCompositeKey] is injective: equal keys
    come from the same app id, app name, namespace and field. *)
Theorem createCompositeKey_injective_without_delimiter
    (this1 this2 : IndexedDbStorage_fields)
    (key1 key2 : ProjectNamespaceKeyFieldValue) :
  hasDelimiter (appId this1) = false →
  hasDelimiter (appName this1) = false →
  hasDelimiter (appId this2) = false →
  hasDelimiter (appName this2) = false →
  createCompositeKey this1 key1 = createCompositeKey this2 key2 →
  appId this1 = appId this2
  ∧ appName this1 = appName this2
  ∧ namespace this1 = namespace this2
  ∧ key1 = key2.
Proof.
  intros Hid1 Hname1 Hid2 Hname2. rewrite !createCompositeKey_eq. intros Heq.
  apply cut_at_first_delimiter in Heq as [Hid Heq]; [|done..].
  apply cut_at_first_delimiter in Heq as [Hname Heq]; [|done..].
  apply cut_at_last_delimiter in Heq as [Hns Hkey];
    [|apply keyString_no_delimiter..].
  by apply keyString_inj in Hkey.
Qed.

(** * Further properties of the storage code *)

(** ** Calls that reject *)

Ltac unfold_IndexedDbStorage :=
  cbn;
  unfold IndexedDbStorage_setCustomSignals, IndexedDbStorage_get,
    IndexedDbStorage_set, IndexedDbStorage_delete, mbind, Async_bind,
    liftResult, getWithTransaction, setWithTransaction,
    deleteWithTransaction, mret, Async_ret.

Lemma perform_invoke {S} (this : @Storage number S) call s :
  perform this call s = (invoke this call s).2.
Proof.
  destruct call as [k|k v|k|customSignals]; cbn; try done.
  - by destruct (set this k v s).
  - by destruct (delete this k s).
Qed.

Lemma IndexedDbStorage_invoke_unopened this medium call store e :
  openDbPromise this = Throw e →
  invoke (IndexedDbStorage this medium) call store = (Throw e, store).
Proof.
  intros Hopen. destruct call; unfold_IndexedDbStorage; by rewrite Hopen.
Qed.

(** X1: a call that rejects leaves the state as it found it, on both
    backends and whatever the medium answers: no method of either backend
    writes and then fails. *)
Theorem rejected_call_changes_nothing (call : Call) :
  (∀ storage e,
     (invoke InMemoryStorage call storage).1 = Throw e →
     (invoke InMemoryStorage call storage).2 = storage)
  ∧ (∀ this medium store e,
       (invoke (IndexedDbStorage this medium) call store).1 = Throw e →
       (invoke (IndexedDbStorage this medium) call store).2 = store).
Proof.
  split.
  - intros storage e. destruct call as [k|k v|k|customSignals]; cbn;
      try done.
    unfold InMemoryStorage_setCustomSignals.
    by destruct (mergeCustomSignals _ _).
  - intros this medium store e.
    destruct call as [k|k v|k|customSignals]; unfold_IndexedDbStorage;
      destruct (openDbPromise this); try done.
    + by destruct (getRequest medium).
    + by destruct (putRequest medium).
    + by destruct (deleteRequest medium).
    + destruct (getRequest medium); try done.
      destruct (mergeCustomSignals _ _); [|done].
      by destruct (putRequest medium).
Qed.


(** X3: an instance whose database failed to open rejects every call with
    the error of the open, issues no request (the medium's answers do not
    matter) and leaves the store alone. *)
Theorem unopened_database_rejects_every_call this e :
  openDbPromise this = Throw e →
  ∀ medium call store,
    invoke (IndexedDbStorage this medium) call store = (Throw e, store).
Proof.
  intros Hopen medium call store.
  by apply IndexedDbStorage_invoke_unopened.
Qed.

(** ** Calls on other keys and on other instances *)

Lemma InMemoryStorage_perform_other call key storage :
  target call ≠ Some key →
  index (perform InMemoryStorage call storage) (keyString key)
  = index storage (keyString key).
Proof.
  intros Htarget. destruct call as [k|k v|k|customSignals]; cbn in *.
  - done.
  - unfold index. rewrite lookup_insert_ne; [done|].
    intros ?%keyString_inj. congruence.
  - unfold index. rewrite lookup_insert_ne; [done|].
    intros ?%keyString_inj. congruence.
  - unfold InMemoryStorage_setCustomSignals.
    destruct (mergeCustomSignals _ _); [|done]. cbn. unfold index.
    rewrite lookup_insert_ne; [done|].
    rewrite <- keyString_custom_signals. intros ?%keyString_inj. congruence.
Qed.

Lemma IndexedDbStorage_perform_other this that medium call key store :
  (∀ k, target call = Some k →
        createCompositeKey that k ≠ createCompositeKey this key) →
  perform (IndexedDbStorage that medium) call store
    !! createCompositeKey this key
  = store !! createCompositeKey this key.
Proof.
  intros Hkeys.
  destruct call as [k|k v|k|customSignals]; unfold_IndexedDbStorage;
    destruct (openDbPromise that); try done.
  - by destruct (getRequest medium).
  - destruct (putRequest medium); [|done..]. unfold put. cbn.
    rewrite lookup_insert_ne; [done|]. by apply Hkeys.
  - destruct (deleteRequest medium); [|done..]. cbn.
    rewrite lookup_delete_ne; [done|]. by apply Hkeys.
  - destruct (getRequest medium); try done.
    destruct (mergeCustomSignals _ _); [|done].
    destruct (putRequest medium); [|done..]. unfold put. cbn.
    rewrite lookup_insert_ne; [done|]. by apply Hkeys.
Qed.

Lemma IndexedDbStorage_get_result this medium key store :
  (get (IndexedDbStorage this medium) key store).1
  = match openDbPromise this with
    | Throw e => Throw e
    | Ok _ =>
        match getRequest medium with
        | onsuccess =>
            Ok (resolvedValue (store !! createCompositeKey this key))
        | onerror m => Throw (toFirebaseError m STORAGE_GET)
        | throws m =>
            Throw (ERROR_FACTORY_create STORAGE_GET (originalErrorMessage m))
        end
    end.
Proof.
  unfold_IndexedDbStorage. destruct (openDbPromise this); [|done].
  by destruct (getRequest medium).
Qed.

(** Equal composite keys of instances whose app id and app name hold no
    delimiter come from equal app ids, app names, namespaces and fields. *)
Lemma createCompositeKey_inj this1 this2 key1 key2 :
  hasDelimiter (appId this1) = false →
  hasDelimiter (appName this1) = false →
  hasDelimiter (appId this2) = false →
  hasDelimiter (appName this2) = false →
  createCompositeKey this1 key1 = createCompositeKey this2 key2 →
  (appId this1, appName this1, namespace this1)
  = (appId this2, appName this2, namespace this2)
  ∧ key1 = key2.
Proof.
  intros Hid1 Hname1 Hid2 Hname2. rewrite !createCompositeKey_eq. intros Heq.
  apply cut_at_first_delimiter in Heq as [-> Heq]; [|done..].
  apply cut_at_first_delimiter in Heq as [-> Heq]; [|done..].
  apply cut_at_last_delimiter in Heq as [-> Hkey];
    [|apply keyString_no_delimiter..].
  by apply keyString_inj in Hkey.
Qed.

(** X4: a call changes what [get] returns under no key but its own:
    [set] and [delete] under the key they are given, [setCustomSignals]
    under [custom_signals], [get] under none; on both backends, whatever
    the medium answers. *)
Theorem calls_leave_other_keys (call : Call)
    (key : ProjectNamespaceKeyFieldValue) :
  target call ≠ Some key →
  (∀ storage,
     (get InMemoryStorage key (perform InMemoryStorage call storage)).1
     = (get InMemoryStorage key storage).1)
  ∧ (∀ this medium medium' store,
       (get (IndexedDbStorage this medium') key
          (perform (IndexedDbStorage this medium) call store)).1
       = (get (IndexedDbStorage this medium') key store).1).
Proof.
  intros Htarget. split.
  - intros storage. cbn. by rewrite InMemoryStorage_perform_other.
  - intros this medium medium' store. rewrite !IndexedDbStorage_get_result.
    rewrite IndexedDbStorage_perform_other; [done|].
    intros k Hk ?%createCompositeKey_key_inj. congruence.
Qed.

(** X5: on one object store, the calls of an instance change nothing of
    what an instance of another app id, app name or namespace reads, when
    the app ids and app names hold no delimiter. *)
Theorem instances_do_not_interfere (this that : IndexedDbStorage_fields) :
  hasDelimiter (appId this) = false →
  hasDelimiter (appName this) = false →
  hasDelimiter (appId that) = false →
  hasDelimiter (appName that) = false →
  (appId this, appName this, namespace this)
  ≠ (appId that, appName that, namespace that) →
  ∀ (call : Call) key medium medium' store,
    (get (IndexedDbStorage this medium') key
       (perform (IndexedDbStorage that medium) call store)).1
    = (get (IndexedDbStorage this medium') key store).1.
Proof.
  intros Hid Hname Hid' Hname' Hother call key medium medium' store.
  rewrite !IndexedDbStorage_get_result.
  rewrite IndexedDbStorage_perform_other; [done|].
  intros k _ Heq.
  apply createCompositeKey_inj in Heq as [Hsame _]; [|done..].
  by apply Hother.
Qed.

(** X6: one instance keeps its fields apart whatever its app id, app name
    and namespace are, delimiters included: different fields get different
    composite keys. *)
Theorem createCompositeKey_fields_apart (this : IndexedDbStorage_fields)
    (key key' : ProjectNamespaceKeyFieldValue) :
  key ≠ key' →
  createCompositeKey this key ≠ createCompositeKey this key'.
Proof. intros Hne Heq. by apply createCompositeKey_key_inj in Heq. Qed.

(** ** Successive updates of the custom signals *)

Lemma updatedSignals_ownProps customSignals storedSignals :
  updatedSignals customSignals storedSignals
  = mergedSignals (ownProps customSignals) (ownProps storedSignals).
Proof.
  unfold updatedSignals, mergedSignals.
  rewrite entries_filter_map, list_to_map_fmap.
  by rewrite <- map_filter_alt.
Qed.


(** Merging into a merged map is merging the overlay of the two updates. *)
Lemma mergedSignals_compose (first second storedSignals : CustomSignals) :
  mergedSignals second (mergedSignals first storedSignals)
  = mergedSignals (second ∪ first) storedSignals.
Proof.
  apply map_eq. intros k.
  rewrite !mergedSignals_lookup, !lookup_union, mergedSignals_lookup,
    lookup_union.
  destruct (second !! k) as [v2|], (first !! k) as [v1|],
    (storedSignals !! k) as [v0|]; cbn; try done.
  all: try (by destruct v1). all: by destruct v0.
Qed.

Lemma mergedSignals_of_settled (signals : CustomSignals) :
  map_Forall (λ _ v, settled v = true) signals →
  mergedSignals ∅ signals = signals.
Proof.
  intros Hsettled. apply map_eq. intros k.
  rewrite mergedSignals_lookup, (left_id_L ∅ (∪)).
  destruct (signals !! k) as [v|] eqn:Hk; [|done].
  cbn. specialize (Hsettled k v Hk). by destruct v.
Qed.

Lemma InMemoryStorage_stored_insert (storage : storage) signals :
  InMemoryStorage_stored (<["custom_signals" := VObject signals]> storage)
  = VObject signals.
Proof. unfold InMemoryStorage_stored. by rewrite index_insert. Qed.

Lemma IndexedDbStorage_stored_put this (store : objectStore) signals :
  IndexedDbStorage_stored this
    (put {| compositeKey := createCompositeKey this custom_signals;
            value := VObject signals |} store)
  = VObject signals.
Proof.
  unfold IndexedDbStorage_stored, put. cbn. by rewrite lookup_insert_eq.
Qed.

Lemma put_put this key (store : objectStore) (v w : val) :
  put {| compositeKey := createCompositeKey this key; value := v |}
    (put {| compositeKey := createCompositeKey this key; value := w |} store)
  = put {| compositeKey := createCompositeKey this key; value := v |} store.
Proof. unfold put. cbn. apply insert_insert_eq. Qed.

(** X7: two updates in a row amount to one update by the overlay of the
    second on the first: after a [setCustomSignals] that resolved, a second
    one resolves or rejects as the single call with [{...first,
    ...second}] on the original state would, and when it resolves it
    leaves the same state (on the persistent backend, when the read of the
    second call is answered). *)
Theorem setCustomSignals_twice (first second : val) :
  (∀ storage result storage1,
     setCustomSignals InMemoryStorage first storage
     = (Ok result, storage1) →
     let both := VObject (ownProps second ∪ ownProps first) in
     (setCustomSignals InMemoryStorage second storage1).1
     = (setCustomSignals InMemoryStorage both storage).1
     ∧ (isOk (setCustomSignals InMemoryStorage second storage1).1 = true →
        (setCustomSignals InMemoryStorage second storage1).2
        = (setCustomSignals InMemoryStorage both storage).2))
  ∧ (∀ this medium medium' store result store1,
       setCustomSignals (IndexedDbStorage this medium) first store
       = (Ok result, store1) →
       getRequest medium' = onsuccess →
       let both := VObject (ownProps second ∪ ownProps first) in
       (setCustomSignals (IndexedDbStorage this medium') second store1).1
       = (setCustomSignals (IndexedDbStorage this medium') both store).1
       ∧ (isOk (setCustomSignals (IndexedDbStorage this medium') second
                  store1).1 = true →
          (setCustomSignals (IndexedDbStorage this medium') second store1).2
          = (setCustomSignals (IndexedDbStorage this medium') both store).2)).
Proof.
  split.
  - intros storage result storage1
      [Hm ->]%InMemoryStorage_setCustomSignals_Ok both.
    apply mergeCustomSignals_Ok in Hm as ->. subst both.
    rewrite !InMemoryStorage_setCustomSignals_eq,
      InMemoryStorage_stored_insert.
    rewrite !mergeCustomSignals_eq, !updatedSignals_ownProps.
    cbn [ownProps]. rewrite mergedSignals_compose.
    destruct (decide _); cbn; [done|].
    split; [done|]. intros _. apply insert_insert_eq.
  - intros this medium medium' store result store1
      (Hm & -> & Hopen)%IndexedDbStorage_setCustomSignals_Ok Hget both.
    apply mergeCustomSignals_Ok in Hm as ->. subst both.
    rewrite !IndexedDbStorage_setCustomSignals_eq by done.
    rewrite IndexedDbStorage_stored_put.
    rewrite !mergeCustomSignals_eq, !updatedSignals_ownProps.
    cbn [ownProps]. rewrite mergedSignals_compose.
    destruct (decide _); cbn; [done|].
    destruct (putRequest medium'); cbn; [|done..].
    split; [done|]. intros _. apply put_put.
Qed.

(** X8: [setCustomSignals] is idempotent: after a call that resolved, the
    same call again resolves with the same signals and leaves the state as
    it is (on the persistent backend, when the medium answers the second
    call). *)
Theorem setCustomSignals_idempotent (customSignals : val) :
  (∀ storage result storage1,
     setCustomSignals InMemoryStorage customSignals storage
     = (Ok result, storage1) →
     setCustomSignals InMemoryStorage customSignals storage1
     = (Ok result, storage1))
  ∧ (∀ this medium medium' store result store1,
       setCustomSignals (IndexedDbStorage this medium) customSignals store
       = (Ok result, store1) →
       getRequest medium' = onsuccess →
       putRequest medium' = onsuccess →
       setCustomSignals (IndexedDbStorage this medium') customSignals store1
       = (Ok result, store1)).
Proof.
  assert (∀ storedSignals,
            updatedSignals customSignals
              (VObject (updatedSignals customSignals storedSignals))
            = updatedSignals customSignals storedSignals) as Hagain.
  { intros storedSignals. rewrite !updatedSignals_ownProps. cbn [ownProps].
    by rewrite mergedSignals_compose, (idemp_L (∪)). }
  split.
  - intros storage result storage1
      [Hm ->]%InMemoryStorage_setCustomSignals_Ok.
    pose proof Hm as ->%mergeCustomSignals_Ok.
    rewrite mergeCustomSignals_eq in Hm.
    rewrite InMemoryStorage_setCustomSignals_eq,
      InMemoryStorage_stored_insert, mergeCustomSignals_eq, Hagain.
    destruct (decide _); [done|]. by rewrite insert_insert_eq.
  - intros this medium medium' store result store1
      (Hm & -> & Hopen)%IndexedDbStorage_setCustomSignals_Ok Hget Hput.
    pose proof Hm as ->%mergeCustomSignals_Ok.
    rewrite mergeCustomSignals_eq in Hm.
    rewrite IndexedDbStorage_setCustomSignals_eq by done.
    rewrite IndexedDbStorage_stored_put, mergeCustomSignals_eq, Hagain.
    destruct (decide _); [done|]. by rewrite Hput, put_put.
Qed.

(** ** Setting and unsetting one signal *)

Lemma mergedSignals_singleton (signals : CustomSignals) name v k :
  map_Forall (λ _ v, settled v = true) signals →
  mergedSignals {[ name := v ]} signals !! k
  = if decide (name = k)
    then (if isNull v then None else Some (stringifyNumber v))
    else signals !! k.
Proof.
  intros Hsettled. rewrite mergedSignals_lookup, lookup_union, lookup_singleton.
  destruct (decide (name = k)) as [->|Hne].
  - by destruct (signals !! k).
  - rewrite (left_id_L None (∪)).
    destruct (signals !! k) as [v0|] eqn:Hk; [|done].
    cbn. specialize (Hsettled k v0 Hk). by destruct v0.
Qed.


(** ** What only setCustomSignals writes *)





(** ** The two backends side by side *)






(** ** Opening the database *)

Lemma openDatabase_answered medium (db : @IDBDatabase number) :
  openRequest medium = onsuccess →
  ownDatabase db →
  openDatabase medium db
  = (Ok (),
     {| version := DB_VERSION;
        objectStores :=
          {[ APP_NAMESPACE_STORE :=
               default ∅ (objectStores db !! APP_NAMESPACE_STORE) ]} |}).
Proof.
  intros Hopen [->|[Hversion [records Hstores]]]; unfold openDatabase;
    rewrite Hopen.
  - cbn. by rewrite insert_empty.
  - rewrite Hversion. cbn. rewrite Hstores, lookup_singleton_eq. cbn.
    destruct db as [v stores]. cbn in *. by subst.
Qed.

(** X12: on the database of a name that was never opened, or on one it
    opened before, [openDatabase] resolves when the request is answered,
    and the database is then at [DB_VERSION] with the one object store
    [APP_NAMESPACE_STORE], holding the records it held before (none when
    it is new); to open once more changes nothing. *)
Theorem openDatabase_creates_the_store_once (medium medium' : OpenMedium)
    (db : @IDBDatabase number) :
  ownDatabase db →
  openRequest medium = onsuccess →
  ∃ opened,
    openDatabase medium db = (Ok (), opened)
    ∧ version opened = DB_VERSION
    ∧ objectStores opened
      = {[ APP_NAMESPACE_STORE :=
             default ∅ (objectStores db !! APP_NAMESPACE_STORE) ]}
    ∧ (openRequest medium' = onsuccess →
       openDatabase medium' opened = (Ok (), opened)).
Proof.
  intros Hown Hopen. eexists. split; [by apply openDatabase_answered|].
  split; [done|]. split; [done|]. intros Hopen'.
  rewrite openDatabase_answered; [|done|].
  - cbn [objectStores]. by rewrite lookup_singleton_eq.
  - right. split; [done|]. by eexists.
Qed.

(** X13: [openDatabase] rejects only with [STORAGE_OPEN], and then leaves
    the database as it was; it never changes a database that is at
    [DB_VERSION]; and whatever the browser answers, a database that is
    none or one it opened before stays so. *)
Theorem openDatabase_keeps_the_database (medium : OpenMedium)
    (db : @IDBDatabase number) :
  (∀ e db',
     openDatabase medium db = (Throw e, db') →
     code e = STORAGE_OPEN ∧ db' = db)
  ∧ (version db = DB_VERSION → (openDatabase medium db).2 = db)
  ∧ (ownDatabase db → ownDatabase (openDatabase medium db).2).
Proof.
  split; [|split].
  - intros e db'. unfold openDatabase.
    destruct (openRequest medium); [|by intros [= <- <-]..].
    destruct (decide _); [by intros [= <- <-]|].
    destruct (decide _); [|done].
    destruct (onupgradeneeded _ _); [done|]. by intros [= <- <-].
  - intros Hversion. unfold openDatabase. rewrite Hversion.
    by destruct (openRequest medium).
  - intros Hown. destruct (openRequest medium) eqn:Hopen.
    + rewrite openDatabase_answered by done. right. split; [done|].
      by eexists.
    + unfold openDatabase. by rewrite Hopen.
    + unfold openDatabase. by rewrite Hopen.
Qed.

(** ** Calls on different keys, in either order *)

(** What a call does to a state depends on the state only through the
    record under the call's key. *)
Lemma InMemoryStorage_perform_effect (call : Call)
    (storage : gmap string val) :
  ∃ effect : option val,
    ∀ storage' : gmap string val,
      (∀ k, target call = Some k →
            index storage' (keyString k) = index storage (keyString k)) →
      perform InMemoryStorage call storage'
      = match effect, target call with
        | Some v, Some k => <[keyString k := v]> storage'
        | _, _ => storage'
        end.
Proof.
  destruct call as [k|k v|k|customSignals].
  - by exists None.
  - by exists (Some v).
  - by exists (Some VUndefined).
  - destruct (mergeCustomSignals customSignals
                (InMemoryStorage_stored storage)) as [merged|e] eqn:Hm.
    + exists (Some merged). intros storage' Hsame. cbn.
      unfold InMemoryStorage_setCustomSignals.
      fold (InMemoryStorage_stored storage').
      assert (InMemoryStorage_stored storage'
              = InMemoryStorage_stored storage) as ->.
      { unfold InMemoryStorage_stored.
        by rewrite <- keyString_custom_signals, (Hsame custom_signals). }
      by rewrite Hm.
    + exists None. intros storage' Hsame. cbn.
      unfold InMemoryStorage_setCustomSignals.
      fold (InMemoryStorage_stored storage').
      assert (InMemoryStorage_stored storage'
              = InMemoryStorage_stored storage) as ->.
      { unfold InMemoryStorage_stored.
        by rewrite <- keyString_custom_signals, (Hsame custom_signals). }
      by rewrite Hm.
Qed.

Lemma IndexedDbStorage_perform_effect this medium call (store : objectStore) :
  ∃ effect : option (option StoreRecord),
    ∀ store' : objectStore,
      (∀ k, target call = Some k →
            store' !! createCompositeKey this k
            = store !! createCompositeKey this k) →
      perform (IndexedDbStorage this medium) call store'
      = match effect, target call with
        | Some record, Some k =>
            partial_alter (λ _, record) (createCompositeKey this k) store'
        | _, _ => store'
        end.
Proof.
  destruct call as [k|k v|k|customSignals].
  - exists None. intros store' _. unfold_IndexedDbStorage.
    destruct (openDbPromise this); [|done]. by destruct (getRequest medium).
  - destruct (openDbPromise this) as [[]|e] eqn:Hopen.
    2: { exists None. intros store' _. unfold_IndexedDbStorage.
         by rewrite Hopen. }
    destruct (putRequest medium) eqn:Hput.
    2,3: exists None; intros store' _; unfold_IndexedDbStorage;
         by rewrite Hopen, Hput.
    exists (Some (Some {| compositeKey := createCompositeKey this k;
                          value := v |})).
    intros store' _. unfold_IndexedDbStorage. by rewrite Hopen, Hput.
  - destruct (openDbPromise this) as [[]|e] eqn:Hopen.
    2: { exists None. intros store' _. unfold_IndexedDbStorage.
         by rewrite Hopen. }
    destruct (deleteRequest medium) eqn:Hdel.
    2,3: exists None; intros store' _; unfold_IndexedDbStorage;
         by rewrite Hopen, Hdel.
    exists (Some None). intros store' _. unfold_IndexedDbStorage.
    by rewrite Hopen, Hdel.
  - destruct (openDbPromise this) as [[]|e] eqn:Hopen.
    2: { exists None. intros store' _. unfold_IndexedDbStorage.
         by rewrite Hopen. }
    destruct (getRequest medium) eqn:Hget.
    2,3: exists None; intros store' _; unfold_IndexedDbStorage;
         by rewrite Hopen, Hget.
    destruct (mergeCustomSignals customSignals
                (IndexedDbStorage_stored this store)) as [merged|e] eqn:Hm.
    2: { exists None. intros store' Hsame. unfold_IndexedDbStorage.
         rewrite Hopen, Hget, (Hsame custom_signals eq_refl).
         fold (IndexedDbStorage_stored this store). by rewrite Hm. }
    destruct (putRequest medium) eqn:Hput.
    2,3: exists None; intros store' Hsame; unfold_IndexedDbStorage;
         rewrite Hopen, Hget, (Hsame custom_signals eq_refl);
         fold (IndexedDbStorage_stored this store); by rewrite Hm, Hput.
    exists (Some (Some {| compositeKey :=
                            createCompositeKey this custom_signals;
                          value := merged |})).
    intros store' Hsame. unfold_IndexedDbStorage.
    rewrite Hopen, Hget, (Hsame custom_signals eq_refl).
    fold (IndexedDbStorage_stored this store). by rewrite Hm, Hput.
Qed.

(** X14: two calls on different keys of one instance can be made in either
    order: the state they leave is the same, on both backends, whatever
    the medium answers to each ([get] has no key and goes with any call,
    [setCustomSignals] has the key [custom_signals]). *)
Theorem calls_on_different_keys_commute (call1 call2 : Call) :
  (∀ k, target call1 = Some k → target call2 ≠ Some k) →
  (∀ storage,
     perform InMemoryStorage call2 (perform InMemoryStorage call1 storage)
     = perform InMemoryStorage call1 (perform InMemoryStorage call2 storage))
  ∧ (∀ this medium1 medium2 store,
       perform (IndexedDbStorage this medium2) call2
         (perform (IndexedDbStorage this medium1) call1 store)
       = perform (IndexedDbStorage this medium1) call1
           (perform (IndexedDbStorage this medium2) call2 store)).
Proof.
  intros Hkeys. split.
  - intros storage.
    destruct (InMemoryStorage_perform_effect call1 storage) as [e1 H1].
    destruct (InMemoryStorage_perform_effect call2 storage) as [e2 H2].
    rewrite (H1 storage), (H2 storage) by done.
    rewrite H1, H2.
    + destruct e1 as [v1|], (target call1) as [k1|] eqn:Hk1; try done.
      destruct e2 as [v2|], (target call2) as [k2|] eqn:Hk2; try done.
      apply insert_insert_ne. intros ?%keyString_inj. subst.
      by apply (Hkeys k1).
    + intros k2 Hk2.
      destruct e1 as [v1|], (target call1) as [k1|] eqn:Hk1; try done.
      unfold index. rewrite lookup_insert_ne; [done|].
      intros ?%keyString_inj. subst. by apply (Hkeys k2).
    + intros k1 Hk1.
      destruct e2 as [v2|], (target call2) as [k2|] eqn:Hk2; try done.
      unfold index. rewrite lookup_insert_ne; [done|].
      intros ?%keyString_inj. subst. by apply (Hkeys k1).
  - intros this medium1 medium2 store.
    destruct (IndexedDbStorage_perform_effect this medium1 call1 store)
      as [e1 H1].
    destruct (IndexedDbStorage_perform_effect this medium2 call2 store)
      as [e2 H2].
    rewrite (H1 store), (H2 store) by done.
    rewrite H1, H2.
    + destruct e1 as [r1|], (target call1) as [k1|] eqn:Hk1; try done.
      destruct e2 as [r2|], (target call2) as [k2|] eqn:Hk2; try done.
      apply partial_alter_partial_alter_ne.
      intros ?%createCompositeKey_key_inj. subst. by apply (Hkeys k1).
    + intros k2 Hk2.
      destruct e1 as [r1|], (target call1) as [k1|] eqn:Hk1; try done.
      rewrite lookup_partial_alter_ne; [done|].
      intros ?%createCompositeKey_key_inj. subst. by apply (Hkeys k2).
    + intros k1 Hk1.
      destruct e2 as [r2|], (target call2) as [k2|] eqn:Hk2; try done.
      rewrite lookup_partial_alter_ne; [done|].
      intros ?%createCompositeKey_key_inj. subst. by apply (Hkeys k1).
Qed.

(** ** At the limit *)

(** X15: the limit counts names, not updates: an update that names only
    signals already stored (to change or to unset them) succeeds whenever
    the stored signals are within the limit, also exactly at it; and on
    stored signals exactly at the limit, none of them null or a number, an
    update that sets one more name is refused with the limit error. *)
Theorem limit_counts_names (newSignals storedSignals : CustomSignals) :
  (dom newSignals ⊆ dom storedSignals →
   (size storedSignals ≤ RC_CUSTOM_SIGNAL_MAX_ALLOWED_SIGNALS)%nat →
   isOk (mergeCustomSignals (VObject newSignals) (VObject storedSignals))
   = true)
  ∧ (∀ name v,
       size storedSignals = RC_CUSTOM_SIGNAL_MAX_ALLOWED_SIGNALS →
       map_Forall (λ _ v, settled v = true) storedSignals →
       storedSignals !! name = None →
       isNull v = false →
       limitExceeded
         (mergeCustomSignals (VObject {[ name := v ]})
            (VObject storedSignals))
       = true).
Proof.
  split.
  - intros Hdom Hsize.
    apply (mergeCustomSignals_limit (VObject newSignals)
             (VObject storedSignals)).
    unfold signalCount. cbn [ownProps].
    etrans; [apply map_subseteq_size, map_filter_subseteq|].
    rewrite <- (size_dom (D := gset string)), dom_union_L.
    rewrite (subseteq_union_1_L _ _ Hdom), size_dom. done.
  - intros name v Hfull Hsettled Hfresh Hv.
    apply (mergeCustomSignals_limit (VObject {[ name := v ]})
             (VObject storedSignals)).
    rewrite <- updatedSignals_size, updatedSignals_mergedSignals.
    assert (mergedSignals {[ name := v ]} storedSignals
            = <[name := stringifyNumber v]> storedSignals) as ->.
    { apply map_eq. intros k. rewrite mergedSignals_singleton by done.
      rewrite lookup_insert, Hv. by destruct (decide _). }
    rewrite map_size_insert_None by done. lia.
Qed.

End Properties.

(** * The properties at concrete data *)

#[local] Existing Instance constants.

(** The specification's example: stored [{a: "1", b: "2"}] and new
    [{b: null, c: 3}] merge to [{a: "1", c: "3"}]. *)
Lemma mergeCustomSignals_example :
  (size (mergedSignals exampleNew exampleStored)
     ≤ RC_CUSTOM_SIGNAL_MAX_ALLOWED_SIGNALS)%nat
  ∧ mergedSignals exampleNew exampleStored
    = {[ "a" := VString "1"; "c" := VString "3" ]}
  ∧ mergeCustomSignals (VObject exampleNew) (VObject exampleStored)
    = Ok (VObject {[ "a" := VString "1"; "c" := VString "3" ]}).
Proof.
  assert (size (mergedSignals exampleNew exampleStored)
            ≤ RC_CUSTOM_SIGNAL_MAX_ALLOWED_SIGNALS)%nat as Hsize.
  { vm_compute. lia. }
  split; [exact Hsize|]. split; [vm_compute; reflexivity|].
  rewrite (proj1 mergeCustomSignals_returns_merged
             exampleNew exampleStored Hsize).
  vm_compute; reflexivity.
Defined.

(** C1 as stated fails: 101 new signals on an empty store make
    [mergeCustomSignals] throw the limit error where the claim has it return
    the 101 merged signals. *)
Lemma mergeCustomSignals_over_limit_throws :
  size (mergedSignals (signalsUpTo 101) ∅) = 101
  ∧ mergeCustomSignals (VObject (signalsUpTo 101)) (VObject ∅)
    = Throw (ERROR_FACTORY_create CUSTOM_SIGNAL_MAX_ALLOWED_SIGNALS
               (maxSignals 100))
  ∧ mergeCustomSignals (VObject (signalsUpTo 101)) (VObject ∅)
    ≠ Ok (VObject (mergedSignals (signalsUpTo 101) ∅)).
Proof.
  assert (mergeCustomSignals (VObject (signalsUpTo 101)) (VObject ∅)
          = Throw (ERROR_FACTORY_create CUSTOM_SIGNAL_MAX_ALLOWED_SIGNALS
                     (maxSignals 100))) as Hthrow by (vm_compute; reflexivity).
  split; [vm_compute; reflexivity|]. split; [exact Hthrow|]. by rewrite Hthrow.
Qed.

(** At the limit and one past it, on the persistent backend. *)
Lemma limit_error_iff_count_exceeds_witness :
  openDbPromise exampleInstance = Ok ()
  ∧ getRequest answeringMedium = onsuccess
  ∧ putRequest answeringMedium = onsuccess
  ∧ signalCount (VObject (signalsUpTo 100)) (VObject ∅) = 100
  ∧ isOk (setCustomSignals (IndexedDbStorage exampleInstance answeringMedium)
            (VObject (signalsUpTo 100)) ∅).1 = true
  ∧ limitExceeded
      (setCustomSignals (IndexedDbStorage exampleInstance answeringMedium)
         (VObject (signalsUpTo 101)) ∅).1 = true.
Proof.
  do 3 (split; [reflexivity|]). split; [vm_compute; reflexivity|]. split.
  - apply (proj2 (proj2 (limit_error_iff_count_exceeds
                           (VObject (signalsUpTo 100))))
             exampleInstance answeringMedium ∅ eq_refl eq_refl);
      [reflexivity|vm_compute; lia].
  - apply (proj2 (proj2 (limit_error_iff_count_exceeds
                           (VObject (signalsUpTo 101))))
             exampleInstance answeringMedium ∅ eq_refl eq_refl).
    vm_compute; lia.
Defined.

(** One signal too many leaves both states as they were. *)
Lemma setCustomSignals_over_limit_no_write_witness :
  RC_CUSTOM_SIGNAL_MAX_ALLOWED_SIGNALS
    < signalCount oneMore (InMemoryStorage_stored fullStorage)
  ∧ (∃ e, setCustomSignals InMemoryStorage oneMore fullStorage
          = (Throw e, fullStorage)
          ∧ code e = CUSTOM_SIGNAL_MAX_ALLOWED_SIGNALS)
  ∧ (∃ e, setCustomSignals
            (IndexedDbStorage exampleInstance answeringMedium) oneMore
            fullStore
          = (Throw e, fullStore)
          ∧ (openDbPromise exampleInstance = Ok () →
             getRequest answeringMedium = onsuccess →
             code e = CUSTOM_SIGNAL_MAX_ALLOWED_SIGNALS)).
Proof.
  split; [vm_compute; lia|]. split.
  - apply (proj1 (setCustomSignals_over_limit_no_write oneMore) fullStorage).
    vm_compute; lia.
  - apply (λ Hover,
             proj1 (proj2 (setCustomSignals_over_limit_no_write oneMore)
                      exampleInstance answeringMedium fullStore Hover)).
    vm_compute; lia.
Defined.

(** C4 as stated fails: the app id [a,b] with the app name [c], and the app
    id [a] with the app name [b,c], give the same composite key. *)
Lemma createCompositeKey_collision :
  createCompositeKey delimiterInId custom_signals
  = "a,b,c,firebase,custom_signals"
  ∧ createCompositeKey delimiterInName custom_signals
    = "a,b,c,firebase,custom_signals"
  ∧ (appId delimiterInId, appName delimiterInId, namespace delimiterInId,
     custom_signals)
    ≠ (appId delimiterInName, appName delimiterInName,
       namespace delimiterInName, custom_signals).
Proof. split; [reflexivity|]. split; [reflexivity|discriminate]. Qed.

(** Two instances of one app, one of which failed to open its database. *)
Lemma createCompositeKey_injective_without_delimiter_witness :
  hasDelimiter (appId exampleInstance) = false
  ∧ hasDelimiter (appName exampleInstance) = false
  ∧ createCompositeKey exampleInstance settings
    = createCompositeKey unopenedInstance settings
  ∧ appId exampleInstance = appId unopenedInstance
  ∧ appName exampleInstance = appName unopenedInstance
  ∧ namespace exampleInstance = namespace unopenedInstance
  ∧ settings = settings.
Proof.
  do 3 (split; [reflexivity|]).
  apply (createCompositeKey_injective_without_delimiter
           exampleInstance unopenedInstance settings settings); reflexivity.
Defined.

(** The example's merge through [setCustomSignals] on the volatile
    backend. *)
Lemma setCustomSignals_returns_persisted_witness :
  setCustomSignals InMemoryStorage (VObject exampleNew) exampleStorage
  = (Ok exampleMerged, <["custom_signals" := exampleMerged]> exampleStorage)
  ∧ mergeCustomSignals (VObject exampleNew)
      (InMemoryStorage_stored exampleStorage)
    = Ok exampleMerged
  ∧ getCustomSignals InMemoryStorage
      (<["custom_signals" := exampleMerged]> exampleStorage)
    = (Ok exampleMerged, <["custom_signals" := exampleMerged]> exampleStorage).
Proof.
  assert (mergeCustomSignals (VObject exampleNew)
            (InMemoryStorage_stored exampleStorage)
          = Ok exampleMerged) as Hmerge by (vm_compute; reflexivity).
  assert (setCustomSignals InMemoryStorage (VObject exampleNew) exampleStorage
          = (Ok exampleMerged,
             <["custom_signals" := exampleMerged]> exampleStorage)) as Hset.
  { rewrite InMemoryStorage_setCustomSignals_eq, Hmerge. reflexivity. }
  split; [exact Hset|].
  exact (proj1 (proj1 (setCustomSignals_returns_persisted (VObject exampleNew))
                  exampleStorage) _ _ Hset).
Defined.

(** An etag written to and read back from the persistent backend. *)
Lemma set_then_get_witness :
  openDbPromise exampleInstance = Ok ()
  ∧ putRequest answeringMedium = onsuccess
  ∧ getRequest answeringMedium = onsuccess
  ∧ ∃ store',
      set (IndexedDbStorage exampleInstance answeringMedium)
        active_config_etag (VString "etag-2") exampleStore
      = (Ok (), store')
      ∧ get (IndexedDbStorage exampleInstance answeringMedium)
          active_config_etag store'
        = (Ok (VString "etag-2"), store').
Proof.
  do 3 (split; [reflexivity|]).
  apply (proj2 (set_then_get active_config_etag (VString "etag-2"))
           exampleInstance answeringMedium answeringMedium exampleStore);
    reflexivity.
Defined.

(** The stored signals deleted from the persistent backend. *)
Lemma delete_then_get_witness :
  openDbPromise exampleInstance = Ok ()
  ∧ deleteRequest answeringMedium = onsuccess
  ∧ getRequest answeringMedium = onsuccess
  ∧ get (IndexedDbStorage exampleInstance answeringMedium) custom_signals
      exampleStore
    = (Ok (VObject exampleStored), exampleStore)
  ∧ ∃ store',
      delete (IndexedDbStorage exampleInstance answeringMedium)
        custom_signals exampleStore
      = (Ok (), store')
      ∧ get (IndexedDbStorage exampleInstance answeringMedium) custom_signals
          store'
        = (Ok VUndefined, store').
Proof.
  do 3 (split; [reflexivity|]).
  split; [by apply IndexedDbStorage_get_put|].
  apply (proj2 (delete_then_get custom_signals)
           exampleInstance answeringMedium answeringMedium exampleStore);
    reflexivity.
Defined.

(** After calls that set the etag and the signals and delete the throttle
    metadata, the throttle metadata are absent on both backends. *)
Lemma get_never_written_witness :
  Forall (λ c, writes throttle_metadata c.2 = false) exampleCalls
  ∧ get InMemoryStorage throttle_metadata
      (performAll (λ _, InMemoryStorage) exampleCalls InMemoryStorage_new)
    = (Ok VUndefined,
       performAll (λ _, InMemoryStorage) exampleCalls InMemoryStorage_new)
  ∧ get (IndexedDbStorage exampleInstance answeringMedium) throttle_metadata
      (performAll (IndexedDbStorage exampleInstance) exampleCalls ∅)
    = (Ok VUndefined,
       performAll (IndexedDbStorage exampleInstance) exampleCalls ∅).
Proof.
  assert (Forall (λ c : Medium * Call, writes throttle_metadata c.2 = false)
            exampleCalls) as Hcalls
    by (repeat constructor).
  split; [exact Hcalls|]. split.
  - exact (proj1 (proj2 (proj2 (get_never_written throttle_metadata))
                    exampleCalls Hcalls)).
  - exact (proj2 (proj2 (proj2 (get_never_written throttle_metadata))
                    exampleCalls Hcalls)
             exampleInstance answeringMedium eq_refl eq_refl).
Defined.

Lemma exampleNew_typed :
  map_Forall (λ (_ : string) (v : jsval Z), isSignalValue v = true) exampleNew.
Proof.
  unfold exampleNew. apply map_Forall_insert_2; [reflexivity|].
  apply map_Forall_insert_2; [reflexivity|]. apply map_Forall_empty.
Defined.

Lemma exampleStored_typed :
  map_Forall (λ (_ : string) (v : jsval Z), isSignalValue v = true)
    exampleStored.
Proof.
  unfold exampleStored. apply map_Forall_insert_2; [reflexivity|].
  apply map_Forall_insert_2; [reflexivity|]. apply map_Forall_empty.
Defined.

(** The example's result holds strings only. *)
Lemma merged_values_are_strings_witness :
  map_Forall (λ (_ : string) (v : jsval Z), isSignalValue v = true) exampleNew
  ∧ map_Forall (λ (_ : string) (v : jsval Z), isSignalValue v = true)
      exampleStored
  ∧ mergeCustomSignals (VObject exampleNew) (VObject exampleStored)
    = Ok exampleMerged
  ∧ ∃ merged,
      exampleMerged = VObject merged
      ∧ map_Forall (λ _ v, isString v = true) merged.
Proof.
  split; [exact exampleNew_typed|]. split; [exact exampleStored_typed|].
  assert (mergeCustomSignals (VObject exampleNew) (VObject exampleStored)
          = Ok exampleMerged) as Hmerge by (vm_compute; reflexivity).
  split; [exact Hmerge|].
  exact (proj1 (merged_values_are_strings exampleNew exampleStored
                  exampleNew_typed exampleStored_typed) _ Hmerge).
Defined.

Lemma unset_b_all_null :
  map_Forall (λ (_ : string) (v : jsval Z), v = VNull) unsetB.
Proof. unfold unsetB. apply map_Forall_singleton. reflexivity. Defined.

(** Unsetting a signal on a new instance of either backend leaves the empty
    object under [custom_signals]. *)
Lemma setCustomSignals_all_null_stores_empty_witness :
  map_Forall (λ (_ : string) (v : jsval Z), v = VNull) unsetB
  ∧ index InMemoryStorage_new "custom_signals" = @VUndefined Z
  ∧ (∃ storage',
       setCustomSignals InMemoryStorage (VObject unsetB)
         InMemoryStorage_new
       = (Ok (VObject ∅), storage')
       ∧ getCustomSignals InMemoryStorage storage'
         = (Ok (VObject ∅), storage'))
  ∧ (∃ store',
       setCustomSignals (IndexedDbStorage exampleInstance answeringMedium)
         (VObject unsetB) ∅
       = (Ok (VObject ∅), store')
       ∧ getCustomSignals (IndexedDbStorage exampleInstance answeringMedium)
           store'
         = (Ok (VObject ∅), store')).
Proof.
  split; [exact unset_b_all_null|]. split; [reflexivity|]. split.
  - apply (proj1 (proj1 setCustomSignals_all_null_stores_empty _
                    unset_b_all_null)).
    reflexivity.
  - apply (proj2 (proj1 setCustomSignals_all_null_stores_empty _
                    unset_b_all_null)
             exampleInstance answeringMedium answeringMedium ∅);
      reflexivity.
Defined.

(** A write that the medium refuses. *)
Lemma rejected_call_changes_nothing_witness :
  (invoke (IndexedDbStorage exampleInstance failingMedium)
     (callSet active_config_etag (VString "etag-2")) exampleStore).1
  = Throw (ERROR_FACTORY_create STORAGE_SET
             (originalErrorMessage (Some "QuotaExceededError")))
  ∧ (invoke (IndexedDbStorage exampleInstance failingMedium)
       (callSet active_config_etag (VString "etag-2")) exampleStore).2
    = exampleStore.
Proof.
  split; [reflexivity|].
  exact (proj2 (rejected_call_changes_nothing
                  (callSet active_config_etag (VString "etag-2")))
           exampleInstance failingMedium exampleStore _ eq_refl).
Defined.


(** The instance whose database did not open. *)
Lemma unopened_database_rejects_every_call_witness :
  openDbPromise unopenedInstance
  = Throw (ERROR_FACTORY_create STORAGE_OPEN (originalErrorMessage None))
  ∧ invoke (IndexedDbStorage unopenedInstance answeringMedium)
      (callGet custom_signals) exampleStore
    = (Throw (ERROR_FACTORY_create STORAGE_OPEN (originalErrorMessage None)),
       exampleStore).
Proof.
  split; [reflexivity|].
  exact (unopened_database_rejects_every_call unopenedInstance _ eq_refl
           answeringMedium (callGet custom_signals) exampleStore).
Defined.

(** Writing the etag leaves the signals. *)
Lemma calls_leave_other_keys_witness :
  target (callSet active_config_etag (VString "etag-2") : @Call Z)
  ≠ Some custom_signals
  ∧ (get InMemoryStorage custom_signals
       (perform InMemoryStorage
          (callSet active_config_etag (VString "etag-2")) exampleStorage)).1
    = (get InMemoryStorage custom_signals exampleStorage).1.
Proof.
  assert (target (callSet active_config_etag (VString "etag-2") : @Call Z)
          ≠ Some custom_signals) as Htarget by discriminate.
  split; [exact Htarget|].
  exact (proj1 (calls_leave_other_keys _ custom_signals Htarget)
           exampleStorage).
Defined.

(** The secondary app deletes its signals; the example app keeps its own. *)
Lemma instances_do_not_interfere_witness :
  hasDelimiter (appId exampleInstance) = false
  ∧ hasDelimiter (appName exampleInstance) = false
  ∧ hasDelimiter (appId secondaryInstance) = false
  ∧ hasDelimiter (appName secondaryInstance) = false
  ∧ (appId exampleInstance, appName exampleInstance,
     namespace exampleInstance)
    ≠ (appId secondaryInstance, appName secondaryInstance,
       namespace secondaryInstance)
  ∧ (get (IndexedDbStorage exampleInstance answeringMedium) custom_signals
       (perform (IndexedDbStorage secondaryInstance answeringMedium)
          (callDelete custom_signals) exampleStore)).1
    = (get (IndexedDbStorage exampleInstance answeringMedium) custom_signals
         exampleStore).1.
Proof.
  assert ((appId exampleInstance, appName exampleInstance,
           namespace exampleInstance)
          ≠ (appId secondaryInstance, appName secondaryInstance,
             namespace secondaryInstance)) as Hother by discriminate.
  do 4 (split; [reflexivity|]). split; [exact Hother|].
  exact (instances_do_not_interfere (number := Z) exampleInstance
           secondaryInstance eq_refl eq_refl eq_refl eq_refl Hother
           (callDelete custom_signals) custom_signals answeringMedium
           answeringMedium exampleStore).
Defined.

(** Two fields of the colliding instance. *)
Lemma createCompositeKey_fields_apart_witness :
  custom_signals ≠ settings
  ∧ createCompositeKey delimiterInId custom_signals
    ≠ createCompositeKey delimiterInId settings.
Proof.
  assert (custom_signals ≠ settings) as Hne by discriminate.
  split; [exact Hne|].
  exact (createCompositeKey_fields_apart delimiterInId _ _ Hne).
Defined.

Lemma exampleStorage_update :
  setCustomSignals InMemoryStorage (VObject exampleNew) exampleStorage
  = (Ok exampleMerged, <["custom_signals" := exampleMerged]> exampleStorage).
Proof.
  assert (mergeCustomSignals (VObject exampleNew)
            (InMemoryStorage_stored exampleStorage)
          = Ok exampleMerged) as Hmerge by (vm_compute; reflexivity).
  rewrite InMemoryStorage_setCustomSignals_eq, Hmerge. reflexivity.
Defined.

(** The example's update, then the unsetting of [b]. *)
Lemma setCustomSignals_twice_witness :
  setCustomSignals InMemoryStorage (VObject exampleNew) exampleStorage
  = (Ok exampleMerged, <["custom_signals" := exampleMerged]> exampleStorage)
  ∧ (setCustomSignals InMemoryStorage (VObject unsetB)
       (<["custom_signals" := exampleMerged]> exampleStorage)).1
    = (setCustomSignals InMemoryStorage
         (VObject (ownProps (VObject unsetB) ∪ ownProps (VObject exampleNew)))
         exampleStorage).1.
Proof.
  split; [exact exampleStorage_update|].
  exact (proj1 (proj1 (setCustomSignals_twice (VObject exampleNew)
                         (VObject unsetB))
                  exampleStorage _ _ exampleStorage_update)).
Defined.

(** The example's update, twice. *)
Lemma setCustomSignals_idempotent_witness :
  setCustomSignals InMemoryStorage (VObject exampleNew) exampleStorage
  = (Ok exampleMerged, <["custom_signals" := exampleMerged]> exampleStorage)
  ∧ setCustomSignals InMemoryStorage (VObject exampleNew)
      (<["custom_signals" := exampleMerged]> exampleStorage)
    = (Ok exampleMerged, <["custom_signals" := exampleMerged]> exampleStorage).
Proof.
  split; [exact exampleStorage_update|].
  exact (proj1 (setCustomSignals_idempotent (VObject exampleNew))
           exampleStorage _ _ exampleStorage_update).
Defined.





Lemma noDatabase_own : ownDatabase (noDatabase : @IDBDatabase Z).
Proof. by left. Defined.

(** The first open of the database. *)
Lemma openDatabase_creates_the_store_once_witness :
  ownDatabase (noDatabase : @IDBDatabase Z)
  ∧ openRequest answeringOpen = onsuccess
  ∧ ∃ opened : @IDBDatabase Z,
      openDatabase answeringOpen noDatabase = (Ok (), opened)
      ∧ version opened = DB_VERSION
      ∧ objectStores opened
        = {[ APP_NAMESPACE_STORE :=
               default ∅ (objectStores noDatabase !! APP_NAMESPACE_STORE) ]}
      ∧ (openRequest answeringOpen = onsuccess →
         openDatabase answeringOpen opened = (Ok (), opened)).
Proof.
  split; [exact noDatabase_own|]. split; [reflexivity|].
  exact (openDatabase_creates_the_store_once answeringOpen answeringOpen
           noDatabase noDatabase_own eq_refl).
Defined.

(** An open that fails, and one of a database opened before. *)
Lemma openDatabase_keeps_the_database_witness :
  openDatabase failingOpen openedDatabase
  = (Throw (ERROR_FACTORY_create STORAGE_OPEN
              (originalErrorMessage (Some "SecurityError"))),
     openedDatabase)
  ∧ version openedDatabase = DB_VERSION
  ∧ (openDatabase answeringOpen openedDatabase).2 = openedDatabase.
Proof.
  split; [reflexivity|]. split; [reflexivity|].
  exact (proj1 (proj2 (openDatabase_keeps_the_database answeringOpen
                         openedDatabase)) eq_refl).
Defined.

(** The etag and the signals, written in either order. *)
Lemma calls_on_different_keys_commute_witness :
  (∀ k, target (callSet active_config_etag (VString "etag-2") : @Call Z)
        = Some k →
        target (callSetCustomSignals (VObject exampleNew) : @Call Z)
        ≠ Some k)
  ∧ perform InMemoryStorage (callSetCustomSignals (VObject exampleNew))
      (perform InMemoryStorage
         (callSet active_config_etag (VString "etag-2")) exampleStorage)
    = perform InMemoryStorage
        (callSet active_config_etag (VString "etag-2"))
        (perform InMemoryStorage (callSetCustomSignals (VObject exampleNew))
           exampleStorage).
Proof.
  assert (∀ k,
            target (callSet active_config_etag (VString "etag-2") : @Call Z)
            = Some k →
            target (callSetCustomSignals (VObject exampleNew) : @Call Z)
            ≠ Some k) as Hkeys.
  { intros k [= <-]. discriminate. }
  split; [exact Hkeys|].
  exact (proj1 (calls_on_different_keys_commute _ _ Hkeys) exampleStorage).
Defined.

Lemma exampleNew_names :
  dom ({[ "b" := VNull ]} : gmap string (jsval Z)) ⊆ dom exampleStored.
Proof.
  unfold exampleStored. rewrite dom_singleton_L, !dom_insert_L.
  set_solver.
Defined.

(** Unsetting a stored signal fits. *)
Lemma limit_counts_names_witness :
  dom ({[ "b" := VNull ]} : gmap string (jsval Z)) ⊆ dom exampleStored
  ∧ (size exampleStored ≤ RC_CUSTOM_SIGNAL_MAX_ALLOWED_SIGNALS)%nat
  ∧ isOk (mergeCustomSignals (VObject {[ "b" := VNull ]})
            (VObject exampleStored))
    = true.
Proof.
  assert (size exampleStored ≤ RC_CUSTOM_SIGNAL_MAX_ALLOWED_SIGNALS)%nat
    as Hsize by (vm_compute; lia).
  split; [exact exampleNew_names|]. split; [exact Hsize|].
  exact (proj1 (limit_counts_names _ exampleStored) exampleNew_names Hsize).
Defined.
